(** * NestScout scoring core: proximity search, rule evaluation, aggregation.

    A shallow embedding of
      - [nestscout/services/scoring_service.py]  (ScoringService)
      - [nestscout/services/poi_service.py]      (POIService.find_nearby)
      - [nestscout/api/scores.py]                (the compute endpoint)
    together with the SQLAlchemy models they read and write.

    Numbers.  Python [float]s are idealised as exact rationals ([Q]); the
    comparisons, the arithmetic and [round] are the exact ones.  Equality of
    computed numbers is therefore stated with [==] ([Qeq]).  Integers are
    unbounded, as in Python, and [float()] of one that no double can hold
    raises [OverflowError].

    Effects.  A Python exception is a value of [exn]; code that may raise
    returns [result].  The database session is an explicit [DB] record that
    is passed in and, where rows are written, returned. *)

From Stdlib Require Import QArith Qround Qabs Qminmax Lqa ZArith Lia.
From Stdlib Require Import Sorting.Sorted Permutation Ascii String.
From stdpp Require Import base option list strings gmap pretty.

Local Open Scope Q_scope.
Set Warnings "-register-all".
Set Default Proof Using "Type*".

(** ** Python exceptions and fallible computations *)

Inductive exn : Set :=
| ValueError
| TypeError
| ZeroDivisionError
| OverflowError.

Inductive result (A : Type) : Type :=
| Ok (a : A)
| Raise (e : exn).
Arguments Ok {A} a.
Arguments Raise {A} e.

Definition bind {A B} (m : result A) (k : A -> result B) : result B :=
  match m with
  | Ok a => k a
  | Raise e => Raise e
  end.

Notation "'let!' x ':=' m 'in' k" := (bind m (fun x => k))
  (at level 10, x name, m at level 100, k at level 200).

(** ** Numbers as Python sees them *)

Definition Qltb (a b : Q) : bool := negb (Qle_bool b a).

(** [max(a, b)] and [min(a, b)] of two arguments: the first argument is
    kept unless the second is strictly better. *)
Definition py_max (a b : Q) : Q := if Qltb a b then b else a.
Definition py_min (a b : Q) : Q := if Qltb b a then b else a.

(** [min(iterable)]: raises [ValueError] on an empty iterable. *)
Definition py_min_list (l : list Q) : result Q :=
  match l with
  | [] => Raise ValueError
  | x :: t => Ok (fold_left py_min t x)
  end.

(** [x or default] on an [Optional[float]]. *)
Definition float_or (o : option Q) (default : Q) : Q :=
  match o with
  | Some q => if Qeq_bool q 0 then default else q
  | None => default
  end.

(** Round-half-even to an integer, as [round] does on an exact value. *)
Definition round_half_even (x : Q) : Z :=
  let f := Qfloor x in
  let r := x - inject_Z f in
  if Qltb r (1 # 2) then f
  else if Qltb (1 # 2) r then (f + 1)%Z
  else if Z.even f then f else (f + 1)%Z.

(** [round(x, ndigits)]. *)
Definition py_round (x : Q) (ndigits : nat) : Q :=
  let scale := inject_Z (10 ^ Z.of_nat ndigits) in
  inject_Z (round_half_even (x * scale)) / scale.

(** ** JSON values (the [parameters] column of a rule) *)

Inductive json : Type :=
| JNull
| JBool (b : bool)
| JNum (q : Q)
| JStr (s : string)
| JList (l : list json)
| JDict (m : gmap string json).

(** Python truthiness of a decoded JSON value. *)
Definition json_truthy (j : json) : bool :=
  match j with
  | JNull => false
  | JBool b => b
  | JNum q => negb (Qeq_bool q 0)
  | JStr s => match s with EmptyString => false | String _ _ => true end
  | JList l => match l with [] => false | _ => true end
  | JDict m => negb (bool_decide (m = ∅))
  end.

(** The numeric view of a value in arithmetic ([bool] is an [int]). *)
Definition json_number (j : json) : option Q :=
  match j with
  | JNum q => Some q
  | JBool true => Some 1
  | JBool false => Some 0
  | _ => None
  end.

Fixpoint string_chars (s : string) : list json :=
  match s with
  | EmptyString => []
  | String c r => JStr (String c EmptyString) :: string_chars r
  end.

(** [for x in j]: lists yield their items, strings their characters, dicts
    their keys; the other values are not iterable. *)
Definition py_iter (j : json) : result (list json) :=
  match j with
  | JList l => Ok l
  | JStr s => Ok (string_chars s)
  | JDict m => Ok (JStr <$> (map_to_list m).*1)
  | JNull | JBool _ | JNum _ => Raise TypeError
  end.

(** ** The rows of the catalog (SQLAlchemy models) *)

Record Property := {
  id : Z;
  external_id : option string;
  title : string;
  description : option string;
  price : option Q;
  currency : string;
  operation : string;
  bedrooms : option Z;
  bathrooms : option Z;
  area_m2 : option Q;
  address : option string;
  city : option string;
  postal_code : option string;
  latitude : option Q;
  longitude : option Q;
  raw_metadata : option json;
  data_source_id : option Z
}.

Record POI := {
  poi_id : Z;
  poi_name : string;
  category_id : Z;
  poi_latitude : option Q;
  poi_longitude : option Q;
  poi_rating : option Q
}.

Record PropertyPOIDistance := {
  dist_property_id : Z;
  dist_poi_id : Z;
  distance_m : Q
}.

Record ScoringRule := {
  rule_id : Z;
  rule_profile_id : Z;
  rule_type : string;
  poi_category_id : option Z;
  max_distance_m : option Q;
  weight : Q;
  parameters : option (gmap string json)
}.

Record SearchProfile := {
  profile_id : Z;
  user_id : Z;
  scoring_rules : list ScoringRule
}.

(** One entry of a score breakdown. *)
Record BreakdownEntry := {
  raw_value : Q;
  entry_weight : Q;
  weighted : Q
}.

(** Materialised score of a property×profile pair; [computed_at] is a
    timestamp. *)
Record PropertyScore := {
  score_property_id : Z;
  score_profile_id : Z;
  total_score : Q;
  breakdown : gmap string BreakdownEntry;
  computed_at : Z
}.

(** The database: each table is the list of its rows in scan order. *)
Record DB := {
  properties : list Property;
  pois : list POI;
  property_poi_distances : list PropertyPOIDistance;
  search_profiles : list SearchProfile;
  property_scores : list PropertyScore
}.

(** [db.session.get(SearchProfile, pid)] *)
Definition get_profile (db : DB) (pid : Z) : option SearchProfile :=
  find (fun p => (profile_id p =? pid)%Z) (search_profiles db).

(** [select(POI).where(POI.category_id == c)] *)
Definition pois_of_category (db : DB) (c : Z) : list POI :=
  List.filter (fun p => (category_id p =? c)%Z) (pois db).

(** The same query with a decoded JSON value bound as the category: only a
    number equal to the stored id selects rows. *)
Definition pois_of_category_json (db : DB) (j : json) : list POI :=
  match json_number j with
  | Some q => List.filter (fun p => Qeq_bool (inject_Z (category_id p)) q) (pois db)
  | None => []
  end.

(** [x if truthy else None], used to read a guard such as
    [if not prop.latitude: return 0.0] together with the value it admits. *)
Definition as_truthy_float (o : option Q) : option Q :=
  match o with
  | Some q => if Qeq_bool q 0 then None else Some q
  | None => None
  end.

Definition as_truthy_int (o : option Z) : option Z :=
  match o with
  | Some z => if (z =? 0)%Z then None else Some z
  | None => None
  end.

(** The least magnitude at which [float(int)] raises [OverflowError]
    (["int too large to convert to float"]): [2^1024 - 2^970], half a unit in
    the last place above the largest double.  Every float lies below it. *)
Definition float_limit : Q := inject_Z (2 ^ 1024 - 2 ^ 970).

(** ** Attribute access on a listing: [getattr(prop, name, None)] *)

(** What [float()] can be applied to: a number, a string, or an object it
    rejects with [TypeError] (a datetime, a collection, a bound method). *)
Inductive pyval : Type :=
| VNum (q : Q)
| VStr (s : string)
| VObj.

Definition other_attributes : list string :=
  ["created_at"; "updated_at"; "images"; "poi_distances"; "scores";
   "saved_by"; "to_dict"; "metadata"; "query"; "registry"]%string.

(** The mapped columns answer with their value ([None] for NULL), the
    relationships, timestamps and methods with an object, any other name
    with the default [None]. *)
Definition getattr (prop : Property) (name : string) : option pyval :=
  let num (o : option Q) := VNum <$> o in
  let int (o : option Z) := (fun z => VNum (inject_Z z)) <$> o in
  let str (o : option string) := VStr <$> o in
  if String.eqb name "id" then int (Some (id prop))
  else if String.eqb name "external_id" then str (external_id prop)
  else if String.eqb name "title" then str (Some (title prop))
  else if String.eqb name "description" then str (description prop)
  else if String.eqb name "price" then num (price prop)
  else if String.eqb name "currency" then str (Some (currency prop))
  else if String.eqb name "operation" then str (Some (operation prop))
  else if String.eqb name "bedrooms" then int (bedrooms prop)
  else if String.eqb name "bathrooms" then int (bathrooms prop)
  else if String.eqb name "area_m2" then num (area_m2 prop)
  else if String.eqb name "address" then str (address prop)
  else if String.eqb name "city" then str (city prop)
  else if String.eqb name "postal_code" then str (postal_code prop)
  else if String.eqb name "latitude" then num (latitude prop)
  else if String.eqb name "longitude" then num (longitude prop)
  else if String.eqb name "raw_metadata" then (fun _ => VObj) <$> raw_metadata prop
  else if String.eqb name "data_source_id" then int (data_source_id prop)
  else if existsb (String.eqb name) other_attributes then Some VObj
  else None.

(** A decoded JSON value as an argument of [float()]. *)
Definition json_pyval (j : json) : pyval :=
  match j with
  | JNum q => VNum q
  | JBool b => VNum (if b then 1 else 0)
  | JStr s => VStr s
  | JNull | JList _ | JDict _ => VObj
  end.

(** ** Stable sorting *)

(** Insertion of [x] behind the elements that come strictly before it and in
    front of all others; [x] stood in front of them in the unsorted list, so
    equal elements keep their order. *)
Fixpoint stable_insert {A} (before : A -> A -> bool) (x : A) (l : list A) : list A :=
  match l with
  | [] => [x]
  | y :: t => if before y x then y :: stable_insert before x t else x :: y :: t
  end.

Definition stable_sort {A} (before : A -> A -> bool) (l : list A) : list A :=
  fold_right (stable_insert before) [] l.

(** [list.sort(key=...)]: stable, ascending on the key. *)
Definition sort_by {A} (key : A -> Q) (l : list A) : list A :=
  stable_sort (fun x y => Qltb (key x) (key y)) l.

(** [ORDER BY key DESC] over rows taken in scan order. *)
Definition sort_by_desc {A} (key : A -> Q) (l : list A) : list A :=
  stable_sort (fun x y => Qltb (key y) (key x)) l.

Section Scoring.

(** [nestscout.utils.geo.haversine_distance lat1 lon1 lat2 lon2], in metres.
    Its body is built from [sin], [cos], [atan2] and [sqrt], which have no
    rational counterpart: the distance function is a parameter. *)
Variable haversine_distance : Q -> Q -> Q -> Q -> Q.

(** Python's [float(str)]: the parsed number, or [None] where Python raises
    [ValueError]. *)
Variable parse_float : string -> option Q.

(** [float(x)]: a float is returned as it is, and so is an integer that a
    double can hold; an integer beyond [float_limit] raises
    [OverflowError]. *)
Definition py_float (v : pyval) : result Q :=
  match v with
  | VNum q => if Qle_bool float_limit (Qabs q) then Raise OverflowError else Ok q
  | VStr s => match parse_float s with Some q => Ok q | None => Raise ValueError end
  | VObj => Raise TypeError
  end.

(** ** POIService.find_nearby *)

(** A POI dict with the added ['distance_m'] field. *)
Record NearbyItem := {
  item_poi : POI;
  item_distance_m : Q
}.

(** The rows of
    [select(POI).where(POI.latitude.isnot(None), POI.longitude.isnot(None))]
    with the optional category filter, paired with their coordinates. *)
Definition located_pois (db : DB) (category : option Z) : list (POI * Q * Q) :=
  let by_category (p : POI) :=
    match as_truthy_int category with
    | Some c => (category_id p =? c)%Z
    | None => true
    end in
  omap (fun p =>
          match poi_latitude p, poi_longitude p with
          | Some la, Some lo => if by_category p then Some (p, la, lo) else None
          | _, _ => None
          end) (pois db).

Definition find_nearby (db : DB) (lat lng radius_m : Q) (category : option Z)
  : list NearbyItem :=
  let results :=
    omap (fun '(poi, la, lo) =>
            let dist := haversine_distance lat lng la lo in
            if Qle_bool dist radius_m
            then Some {| item_poi := poi; item_distance_m := py_round dist 1 |}
            else None)
         (located_pois db category) in
  sort_by item_distance_m results.

(** ** ScoringService: rule evaluation *)

(** The generator
    [haversine_distance(prop.latitude, prop.longitude, p.latitude, p.longitude)
       for p in pois if p.latitude and p.longitude]. *)
Definition live_distances (lat lon : Q) (ps : list POI) : list Q :=
  omap (fun p =>
          match as_truthy_float (poi_latitude p), as_truthy_float (poi_longitude p) with
          | Some la, Some lo => Some (haversine_distance lat lon la lo)
          | _, _ => None
          end) ps.

(** The pre-computed distances of a listing to the POIs of a category: the
    join of [PropertyPOIDistance] with [POI], before ordering. *)
Definition precomputed_distances (db : DB) (prop_id cat : Z) : list Q :=
  flat_map (fun d =>
              if (dist_property_id d =? prop_id)%Z
              then map (fun _ => distance_m d)
                       (List.filter (fun p => (poi_id p =? dist_poi_id d)%Z
                                              && (category_id p =? cat)%Z) (pois db))
              else [])
           (property_poi_distances db).

(** [.order_by(PropertyPOIDistance.distance_m).limit(1)] followed by
    [scalar_one_or_none()]: the smallest distance, or [None]. *)
Definition nearest_precomputed (db : DB) (prop_id cat : Z) : option Q :=
  match precomputed_distances db prop_id cat with
  | [] => None
  | x :: t => Some (fold_left py_min t x)
  end.

(** The shared tail [0.0 if d > max_dist else max(0.0, 1.0 - d / max_dist)]. *)
Definition decay (d max_dist : Q) : Q :=
  if Qltb max_dist d then 0 else py_max 0 (1 - d / max_dist).

Definition _eval_poi_proximity (db : DB) (rule : ScoringRule) (prop : Property)
  : result Q :=
  match as_truthy_float (latitude prop), as_truthy_float (longitude prop),
        as_truthy_int (poi_category_id rule) with
  | Some lat, Some lon, Some cat =>
      let max_dist := float_or (max_distance_m rule) 1000 in
      match nearest_precomputed db (id prop) cat with
      | Some nearest => Ok (decay nearest max_dist)
      | None =>
          let ps := pois_of_category db cat in
          match ps with
          | [] => Ok 0
          | _ =>
              let! min_dist := py_min_list (live_distances lat lon ps) in
              Ok (decay min_dist max_dist)
          end
      end
  | _, _, _ => Ok 0
  end.

(** [count / target_count] with [count] an [int] and [target_count] whatever
    the parameter bag holds. *)
Definition py_div_count (count : nat) (target_count : json) : result Q :=
  match json_number target_count with
  | Some t => if Qeq_bool t 0 then Raise ZeroDivisionError
              else Ok (inject_Z (Z.of_nat count) / t)
  | None => Raise TypeError
  end.

Definition _eval_poi_density (db : DB) (rule : ScoringRule) (prop : Property)
  : result Q :=
  match as_truthy_float (latitude prop), as_truthy_float (longitude prop),
        as_truthy_int (poi_category_id rule) with
  | Some lat, Some lon, Some cat =>
      let params := default ∅ (parameters rule) in
      let radius := float_or (max_distance_m rule) 1000 in
      let target_count := default (JNum 5) (params !! "target_count"%string) in
      let ps := pois_of_category db cat in
      let count :=
        length (List.filter (fun d => Qle_bool d radius) (live_distances lat lon ps)) in
      let! ratio := py_div_count count target_count in
      Ok (py_min ratio 1)
  | _, _, _ => Ok 0
  end.

(** The body of the [try] block: the three [float()] conversions in order. *)
Definition floats_or_raise (actual : pyval) (ideal tolerance : json)
  : result (Q * Q * Q) :=
  let! actual := py_float actual in
  let! ideal := py_float (json_pyval ideal) in
  let! tolerance := py_float (json_pyval tolerance) in
  Ok (actual, ideal, tolerance).

Definition _eval_property_attr (rule : ScoringRule) (prop : Property) : result Q :=
  let params := default ∅ (parameters rule) in
  let attr_name := params !! "attribute"%string in
  let ideal := params !! "ideal"%string in
  let tolerance := default (JNum 0) (params !! "tolerance"%string) in
  match attr_name, ideal with
  | Some name, Some ideal =>
      if negb (json_truthy name) then Ok 0
      else match ideal with
      | JNull => Ok 0
      | _ =>
        match name with
        | JStr name =>
            match getattr prop name with
            | None => Ok 0
            | Some actual =>
                match floats_or_raise actual ideal tolerance with
                | Raise ValueError | Raise TypeError => Ok 0
                | Raise e => Raise e
                | Ok (actual, ideal, tolerance) =>
                    if Qeq_bool tolerance 0
                    then Ok (if Qeq_bool actual ideal then 1 else 0)
                    else
                      let diff := Qabs (actual - ideal) in
                      Ok (py_max 0 (1 - diff / tolerance))
                end
            end
        | _ => Raise TypeError
        end
      end
  | _, _ => Ok 0
  end.

(** The body of the [for cat_id in categories] loop, appending to [scores]. *)
Fixpoint walkability_scores (db : DB) (lat lon max_dist : Q) (categories : list json)
  : result (list Q) :=
  match categories with
  | [] => Ok []
  | cat_id :: rest =>
      let ps := pois_of_category_json db cat_id in
      let! s :=
        match ps with
        | [] => Ok 0
        | _ =>
            let! min_dist := py_min_list (live_distances lat lon ps) in
            Ok (py_max 0 (1 - min_dist / max_dist))
        end in
      let! ss := walkability_scores db lat lon max_dist rest in
      Ok (s :: ss)
  end.

(** [sum(scores)]: addition from the left, starting at 0. *)
Definition Qsum (l : list Q) : Q := fold_left Qplus l 0.

Definition _eval_walkability (db : DB) (rule : ScoringRule) (prop : Property)
  : result Q :=
  match as_truthy_float (latitude prop), as_truthy_float (longitude prop) with
  | Some lat, Some lon =>
      let params := default ∅ (parameters rule) in
      let categories := default (JList []) (params !! "categories"%string) in
      let max_dist := float_or (max_distance_m rule) 1000 in
      if negb (json_truthy categories) then Ok 0
      else
        let! cats := py_iter categories in
        let! scores := walkability_scores db lat lon max_dist cats in
        match scores with
        | [] => Ok 0
        | _ => Ok (Qsum scores / inject_Z (Z.of_nat (length scores)))
        end
  | _, _ => Ok 0
  end.

Definition _evaluate_rule (db : DB) (rule : ScoringRule) (prop : Property)
  : result Q :=
  if String.eqb (rule_type rule) "poi_proximity" then _eval_poi_proximity db rule prop
  else if String.eqb (rule_type rule) "poi_density" then _eval_poi_density db rule prop
  else if String.eqb (rule_type rule) "property_attr" then _eval_property_attr rule prop
  else if String.eqb (rule_type rule) "walkability" then _eval_walkability db rule prop
  else Ok 0.

(** ** ScoringService: aggregation *)

(** The breakdown key [f"rule_{rule.id}_{rule.rule_type}"]. *)
Definition breakdown_key (rule : ScoringRule) : string :=
  "rule_" +:+ pretty (rule_id rule) +:+ "_" +:+ rule_type rule.

(** The dict stored under a rule's key:
    [{"raw_value": round(raw_value, 3), "weight": rule.weight,
      "weighted": round(raw_value * rule.weight, 3)}]. *)
Definition breakdown_entry (rule : ScoringRule) (raw : Q) : BreakdownEntry :=
  {| raw_value := py_round raw 3;
     entry_weight := weight rule;
     weighted := py_round (raw * weight rule) 3 |}.

(** The loop state of [_score_property]: [total], [weight_sum], [breakdown]. *)
Definition score_state : Type := Q * Q * gmap string BreakdownEntry.

Definition score_step (db : DB) (prop : Property) (st : score_state)
  (rule : ScoringRule) : result score_state :=
  let '(total, weight_sum, bd) := st in
  let! raw := _evaluate_rule db rule prop in
  Ok (total + raw * weight rule,
      weight_sum + weight rule,
      <[breakdown_key rule := breakdown_entry rule raw]> bd).

Fixpoint score_loop (db : DB) (prop : Property) (rules : list ScoringRule)
  (st : score_state) : result score_state :=
  match rules with
  | [] => Ok st
  | rule :: rest =>
      let! st' := score_step db prop st rule in
      score_loop db prop rest st'
  end.

Definition _score_property (db : DB) (prop : Property) (rules : list ScoringRule)
  : result (Q * gmap string BreakdownEntry) :=
  let! st := score_loop db prop rules (0, 0, ∅) in
  let '(total, weight_sum, bd) := st in
  let final_score := if Qltb 0 weight_sum then total / weight_sum * 100 else 0 in
  Ok (py_round final_score 2, bd).

(** ** The score store *)

Definition score_key_eqb (property_id profile_id : Z) (s : PropertyScore) : bool :=
  (score_property_id s =? property_id)%Z && (score_profile_id s =? profile_id)%Z.

(** [select(PropertyScore).where(...).scalar_one_or_none()] on the primary key. *)
Definition lookup_score (rows : list PropertyScore) (property_id profile_id : Z)
  : option PropertyScore :=
  find (score_key_eqb property_id profile_id) rows.

(** The upsert of [compute_scores]: an existing row gets its three fields
    assigned in place, otherwise a new row is added. *)
Fixpoint upsert_score (rows : list PropertyScore) (property_id profile_id : Z)
  (score : Q) (bd : gmap string BreakdownEntry) (now : Z) : list PropertyScore :=
  match rows with
  | [] => [ {| score_property_id := property_id; score_profile_id := profile_id;
               total_score := score; breakdown := bd; computed_at := now |} ]
  | r :: rest =>
      if score_key_eqb property_id profile_id r
      then {| score_property_id := score_property_id r;
              score_profile_id := score_profile_id r;
              total_score := score; breakdown := bd; computed_at := now |} :: rest
      else r :: upsert_score rest property_id profile_id score bd now
  end.

(** The [for prop in properties] loop: the pending score rows and [count]. *)
Fixpoint compute_loop (db : DB) (profile_id : Z) (rules : list ScoringRule) (now : Z)
  (props : list Property) (rows : list PropertyScore) (count : Z)
  : result (list PropertyScore * Z) :=
  match props with
  | [] => Ok (rows, count)
  | prop :: rest =>
      let! sb := _score_property db prop rules in
      let rows' := upsert_score rows (id prop) profile_id sb.1 sb.2 now in
      compute_loop db profile_id rules now rest rows' (count + 1)%Z
  end.

Definition with_scores (db : DB) (rows : list PropertyScore) : DB :=
  {| properties := properties db; pois := pois db;
     property_poi_distances := property_poi_distances db;
     search_profiles := search_profiles db;
     property_scores := rows |}.

(** [ScoringService.compute_scores(profile_id)] at clock reading [now].  The
    rows become visible with [db.session.commit()]; a run that raises never
    reaches the commit and leaves the database as it was. *)
Definition compute_scores (db : DB) (now : Z) (profile_id : Z) : DB * result Z :=
  match get_profile db profile_id with
  | None => (db, Ok 0%Z)
  | Some profile =>
      match scoring_rules profile with
      | [] => (db, Ok 0%Z)
      | rules =>
          match compute_loop db profile_id rules now (properties db)
                             (property_scores db) 0%Z with
          | Ok (rows, count) => (with_scores db rows, Ok count)
          | Raise e => (db, Raise e)
          end
      end
  end.

(** The join [PropertyScore ⋈ Property] restricted to one profile. *)
Definition ranked_rows (db : DB) (profile_id : Z) : list (PropertyScore * Property) :=
  flat_map (fun s =>
              if (score_profile_id s =? profile_id)%Z
              then map (fun p => (s, p))
                       (List.filter (fun p => (id p =? score_property_id s)%Z)
                                    (properties db))
              else [])
           (property_scores db).

(** [ScoringService.get_ranked_properties(profile_id)]: each result is the
    listing dict with its score dict under ["score"]. *)
Definition get_ranked_properties (db : DB) (profile_id : Z)
  : list (PropertyScore * Property) :=
  sort_by_desc (fun sp => total_score sp.1) (ranked_rows db profile_id).

(** ** The compute endpoint of [api/scores.py] *)

Inductive ResponseBody : Type :=
| ErrorBody (error : string)
| ComputeBody (message : string) (count : Z).

Record Response := {
  body : ResponseBody;
  status : Z
}.

Definition api_compute_scores (db : DB) (now : Z) (jwt_user_id : Z) (profile_id : Z)
  : DB * result Response :=
  match get_profile db profile_id with
  | Some profile =>
      if negb (user_id profile =? jwt_user_id)%Z
      then (db, Ok {| body := ErrorBody "Profile not found"; status := 404 |})
      else
        let '(db', r) := compute_scores db now profile_id in
        (db', let! count := r in
              Ok {| body := ComputeBody ("Scored " +:+ pretty count +:+ " properties") count;
                    status := 200 |})
  | None => (db, Ok {| body := ErrorBody "Profile not found"; status := 404 |})
  end.

End Scoring.

(** ** Vocabulary of the statements *)

(** [d] is the least element of [l]. *)
Definition least (d : Q) (l : list Q) : Prop :=
  In d l /\ forall y, In y l -> d <= y.

(** [d] satisfies [P] and no value satisfying [P] is smaller. *)
Definition nearest (P : Q -> Prop) (d : Q) : Prop :=
  P d /\ forall d', P d' -> d <= d'.

(** [d] is the pre-computed distance of a row that links the listing
    [prop_id] to a POI of category [cat]. *)
Definition cached_distance_to (db : DB) (prop_id cat : Z) (d : Q) : Prop :=
  exists row p,
    row ∈ property_poi_distances db /\ dist_property_id row = prop_id
    /\ p ∈ pois db /\ poi_id p = dist_poi_id row /\ category_id p = cat
    /\ d = distance_m row.

(** [d] is the distance from [(lat, lon)] to a POI of category [cat] whose
    latitude and longitude are present and non-zero. *)
Definition live_distance_to (distance : Q -> Q -> Q -> Q -> Q) (db : DB) (cat : Z)
  (lat lon d : Q) : Prop :=
  exists p la lo,
    p ∈ pois db /\ category_id p = cat
    /\ poi_latitude p = Some la /\ ~ la == 0
    /\ poi_longitude p = Some lo /\ ~ lo == 0
    /\ d = distance lat lon la lo.

(** The raw value of a proximity rule in the words of the design document:
    [max(0, 1 - d/M)] when [d <= M], and [0.0] when [d > M]. *)
Definition proximity_raw (d M : Q) : Q :=
  if Qle_bool d M then Qmax 0 (1 - d / M) else 0.

(** The aggregate in the words of the design document: the sum over the
    rules of [raw * weight], the sum of the weights, and the final score
    [round(total / weight_sum * 100, 2)] when the weight sum is positive,
    [0.0] otherwise. *)
Fixpoint weighted_sum (rules : list ScoringRule) (raws : list Q) : Q :=
  match rules, raws with
  | r :: rs, v :: vs => v * weight r + weighted_sum rs vs
  | _, _ => 0
  end.

Fixpoint weight_total (rules : list ScoringRule) : Q :=
  match rules with
  | [] => 0
  | r :: rs => weight r + weight_total rs
  end.

Definition aggregated_score (rules : list ScoringRule) (raws : list Q) : Q :=
  if Qltb 0 (weight_total rules)
  then py_round (weighted_sum rules raws / weight_total rules * 100) 2
  else 0.

(** The character [c] does not occur in [s]. *)
Fixpoint free_of (c : ascii) (s : string) : Prop :=
  match s with
  | EmptyString => True
  | String a r => a <> c /\ free_of c r
  end.

(** A coordinate that is present and equal to [0.0]. *)
Definition is_zero (o : option Q) : Prop := exists q, o = Some q /\ q == 0.

(** Two score rows that agree on everything but [computed_at]. *)
Definition same_score (a b : PropertyScore) : Prop :=
  score_property_id a = score_property_id b
  /\ score_profile_id a = score_profile_id b
  /\ total_score a = total_score b
  /\ breakdown a = breakdown b.

(** Under the key [(property_id, profile_id)] the two stores hold no row, or
    each holds a row and the two agree up to [computed_at]. *)
Definition same_score_at (rows1 rows2 : list PropertyScore)
  (property_id profile_id : Z) : Prop :=
  match lookup_score rows1 property_id profile_id,
        lookup_score rows2 property_id profile_id with
  | Some a, Some b => same_score a b
  | None, None => True
  | _, _ => False
  end.

(** ** Concrete scenarios *)

(** A rational stand-in for the great-circle distance, used to run concrete
    scenarios: like the haversine distance it is zero between identical
    points and symmetric. *)
Definition grid_distance (lat1 lon1 lat2 lon2 : Q) : Q :=
  111000 * (Qabs (lat2 - lat1) + Qabs (lon2 - lon1)).

(** A stand-in for [float(str)] that accepts no string; the scenarios hold
    no string-valued numbers. *)
Definition no_numeric_strings (s : string) : option Q := None.

Definition mk_property (i : Z) (lat lon : option Q) (beds : option Z) : Property :=
  {| id := i; external_id := None; title := "Flat"; description := None;
     price := None; currency := "EUR"; operation := "sale";
     bedrooms := beds; bathrooms := None; area_m2 := None; address := None;
     city := Some "Barcelona"%string; postal_code := None;
     latitude := lat; longitude := lon; raw_metadata := None;
     data_source_id := None |}.

Definition mk_poi (i cat : Z) (lat lon : option Q) : POI :=
  {| poi_id := i; poi_name := "Station"; category_id := cat;
     poi_latitude := lat; poi_longitude := lon; poi_rating := None |}.

Definition mk_rule (i : Z) (ty : string) (cat : option Z) (maxd : option Q) (w : Q)
  (params : option (gmap string json)) : ScoringRule :=
  {| rule_id := i; rule_profile_id := 7; rule_type := ty; poi_category_id := cat;
     max_distance_m := maxd; weight := w; parameters := params |}.

(** The listing of the design document's scenario, in Barcelona. *)
Definition barcelona : Property :=
  mk_property 1 (Some (41389 # 1000)) (Some (2159 # 1000)) (Some 3%Z).

(** One metro station (category 1), 400 m from the listing according to the
    pre-computed distance table, and three cafes (category 2). *)
Definition metro_station : POI :=
  mk_poi 10 1 (Some (41392 # 1000)) (Some (2162 # 1000)).

Definition cafes : list POI :=
  [ mk_poi 20 2 (Some (41390 # 1000)) (Some (2159 # 1000));
    mk_poi 21 2 (Some (41389 # 1000)) (Some (2161 # 1000));
    mk_poi 22 2 (Some (41399 # 1000)) (Some (2159 # 1000)) ].

(** A metro entrance at the very coordinates of the listing. *)
Definition doorstep_metro : POI :=
  mk_poi 11 1 (Some (41389 # 1000)) (Some (2159 # 1000)).

Definition doorstep_cafe : POI :=
  mk_poi 23 2 (Some (41389 # 1000)) (Some (2159 # 1000)).

(** A POI of category 3 whose coordinates were never filled in. *)
Definition unlocated_school : POI := mk_poi 30 3 None None.

Definition proximity_rule (w : Q) : ScoringRule :=
  mk_rule 1 "poi_proximity" (Some 1%Z) (Some 1000) w None.

Definition density_rule (w : Q) : ScoringRule :=
  mk_rule 2 "poi_density" (Some 2%Z) (Some 500) w
          (Some {[ "target_count"%string := JNum 5 ]}).

Definition school_rule : ScoringRule :=
  mk_rule 3 "poi_proximity" (Some 3%Z) (Some 1000) 1 None.

Definition bedrooms_rule : ScoringRule :=
  mk_rule 4 "property_attr" None None 1
          (Some (<[ "attribute"%string := JStr "bedrooms" ]>
                 (<[ "ideal"%string := JNum 1 ]>
                  {[ "tolerance"%string := JNum (-1) ]}))).

Definition metro_profile : SearchProfile :=
  {| profile_id := 7; user_id := 42; scoring_rules := [proximity_rule 1] |}.

Definition empty_profile : SearchProfile :=
  {| profile_id := 8; user_id := 42; scoring_rules := [] |}.

Definition school_profile : SearchProfile :=
  {| profile_id := 9; user_id := 42; scoring_rules := [proximity_rule 1; school_rule] |}.

Definition scenario_db : DB :=
  {| properties := [barcelona];
     pois := metro_station :: unlocated_school :: cafes;
     property_poi_distances :=
       [ {| dist_property_id := 1; dist_poi_id := 10; distance_m := 400 |} ];
     search_profiles := [metro_profile; empty_profile; school_profile];
     property_scores := [] |}.

(** The same catalog with a metro entrance added at the listing's door; the
    distance table predates it and knows the station only. *)
Definition doorstep_db : DB :=
  {| properties := [barcelona];
     pois := [metro_station; doorstep_metro; doorstep_cafe];
     property_poi_distances :=
       [ {| dist_property_id := 1; dist_poi_id := 10; distance_m := 400 |} ];
     search_profiles := [metro_profile];
     property_scores := [] |}.

(** A second listing, as far from the station as the first. *)
Definition neighbour : Property :=
  mk_property 2 (Some (41395 # 1000)) (Some (2165 # 1000)) (Some 2%Z).

(** The score row a run for profile 7 stores for a listing 400 m from the
    station: total 60.0. *)
Definition stored_score (property_id : Z) : PropertyScore :=
  {| score_property_id := property_id; score_profile_id := 7;
     total_score := 60;
     breakdown :=
       {[ "rule_1_poi_proximity"%string :=
            {| raw_value := 6 # 10; entry_weight := 1; weighted := 6 # 10 |} ]};
     computed_at := 0 |}.

(** Two listings in primary-key order, both 400 m from the station; the
    score table holds the row of listing 2 in front of the row of
    listing 1. *)
Definition tie_db : DB :=
  {| properties := [barcelona; neighbour];
     pois := [metro_station];
     property_poi_distances :=
       [ {| dist_property_id := 1; dist_poi_id := 10; distance_m := 400 |};
         {| dist_property_id := 2; dist_poi_id := 10; distance_m := 400 |} ];
     search_profiles := [metro_profile];
     property_scores := [stored_score 2; stored_score 1] |}.

(** A profile with a rule, and no listing in the catalog yet. *)
Definition empty_catalog_db : DB :=
  {| properties := [];
     pois := [metro_station];
     property_poi_distances := [];
     search_profiles := [metro_profile];
     property_scores := [] |}.

(** A listing on the equator. *)
Definition equator_listing : Property :=
  mk_property 3 (Some 0) (Some (2159 # 1000)) (Some 2%Z).

(** * Further operations *)

(** ** The neighbourhood agent's tools ([agents/poi_agent.py]) *)

Record POICategory := {
  cat_id : Z;
  cat_name : string;
  cat_icon : option string;
  cat_color : option string
}.

(** The ["category_name"] entry of [POI.to_dict()]:
    [self.category.name if self.category else None]. *)
Definition category_name_of (categories : list POICategory) (p : POI) : option string :=
  cat_name <$> find (fun c => (cat_id c =? category_id p)%Z) categories.

(** What [get_area_stats] reports per category. *)
Record CategoryStats := {
  stat_count : Z;
  stat_avg_distance : Q;
  stat_nearest : Q
}.

(** The [summary] dict of [get_area_stats]; [categories] keeps the order in
    which the categories were first met. *)
Record AreaSummary := {
  summary_center : Q * Q;
  summary_radius_m : Q;
  total_pois : nat;
  summary_categories : list (option string * CategoryStats)
}.

(** [stats[cat]["count"] += 1; stats[cat]["distances"].append(d)], after
    creating the entry when [cat not in stats]. *)
Fixpoint stats_add (cat : option string) (d : Q)
  (stats : list (option string * (Z * list Q))) : list (option string * (Z * list Q)) :=
  match stats with
  | [] => [(cat, (1%Z, [d]))]
  | (c, (n, ds)) :: rest =>
      if decide (c = cat) then (c, ((n + 1)%Z, ds ++ [d])) :: rest
      else (c, (n, ds)) :: stats_add cat d rest
  end.

(** The second loop: [avg_distance = round(sum(ds) / len(ds), 1)] and
    [nearest = round(min(ds), 1)]. *)
Definition finish_stats (e : Z * list Q) : result CategoryStats :=
  let '(n, ds) := e in
  let! avg := match ds with
              | [] => Raise ZeroDivisionError
              | _ => Ok (Qsum ds / inject_Z (Z.of_nat (length ds)))
              end in
  let! nearest := py_min_list ds in
  Ok {| stat_count := n;
        stat_avg_distance := py_round avg 1;
        stat_nearest := py_round nearest 1 |}.

Fixpoint finish_all (stats : list (option string * (Z * list Q)))
  : result (list (option string * CategoryStats)) :=
  match stats with
  | [] => Ok []
  | (c, e) :: rest =>
      let! st := finish_stats e in
      let! rest' := finish_all rest in
      Ok ((c, st) :: rest')
  end.

Section AgentTools.
Variable haversine_distance : Q -> Q -> Q -> Q -> Q.

(** [search_pois]: the list that is serialised, [results[:20]]. *)
Definition search_pois (db : DB) (latitude longitude radius_m : Q) (category_id : Z)
  : list NearbyItem :=
  let cat_id := if (0 <? category_id)%Z then Some category_id else None in
  take 20 (find_nearby haversine_distance db latitude longitude radius_m cat_id).

(** The first loop of [get_area_stats], over the results in order. *)
Definition area_stats (categories : list POICategory) (results : list NearbyItem)
  : list (option string * (Z * list Q)) :=
  fold_left (fun stats poi =>
               stats_add (category_name_of categories (item_poi poi))
                         (item_distance_m poi) stats)
            results [].

(** [get_area_stats]: the [summary] that is serialised. *)
Definition get_area_stats (categories : list POICategory) (db : DB)
  (latitude longitude radius_m : Q) : result AreaSummary :=
  let results := find_nearby haversine_distance db latitude longitude radius_m None in
  let! stats := finish_all (area_stats categories results) in
  Ok {| summary_center := (latitude, longitude);
        summary_radius_m := radius_m;
        total_pois := length results;
        summary_categories := stats |}.

End AgentTools.

(** ** The rest of [POIService] *)

(** [POIService.list_pois]: the ["items"] and the ["total"] of the page.
    [page] and [per_page] are taken non-negative; what a negative OFFSET or
    LIMIT does is the engine's affair. *)
Definition list_pois_filtered (db : DB) (category : option Z) : list POI :=
  match as_truthy_int category with
  | Some c => List.filter (fun p => (category_id p =? c)%Z) (pois db)
  | None => pois db
  end.

Definition list_pois (db : DB) (category : option Z) (page per_page : nat)
  : list POI * nat :=
  let stmt := list_pois_filtered db category in
  let total := length stmt in
  let items :=
    take per_page
         (drop ((page - 1) * per_page)
               (sort_by (fun p => inject_Z (poi_id p)) stmt)) in
  (items, total).

(** The tables [POIService] writes. *)
Record Catalog := {
  catalog_categories : list POICategory;
  catalog_pois : list POI
}.

(** A record handed to [bulk_create], as the CSV parser and the request
    schema produce it: a name, and optionally a category name, a category
    id, coordinates and a rating. *)
Record POIRecord := {
  rec_name : string;
  rec_category : option string;
  rec_category_id : option Z;
  rec_latitude : option Q;
  rec_longitude : option Q;
  rec_rating : option Q
}.

Section POIWrites.

(** The primary keys the database hands out on insert. *)
Variable next_category_id : list POICategory -> Z.
Variable next_poi_id : list POI -> Z.

(** [POIService.get_or_create_category]; the [name] column is unique, so
    [scalar_one_or_none()] sees at most one row. *)
Definition get_or_create_category (cat : Catalog) (name : string)
  (icon color : option string) : Catalog * POICategory :=
  match find (fun c => String.eqb (cat_name c) name) (catalog_categories cat) with
  | Some c => (cat, c)
  | None =>
      let c := {| cat_id := next_category_id (catalog_categories cat);
                  cat_name := name; cat_icon := icon; cat_color := color |} in
      ({| catalog_categories := catalog_categories cat ++ [c];
          catalog_pois := catalog_pois cat |}, c)
  end.

(** One round of the loop of [bulk_create]. *)
Definition bulk_create_step (st : Catalog * Z * Z) (record : POIRecord)
  : Catalog * Z * Z :=
  let '(cat, created, skipped) := st in
  let '(cat, resolved) :=
    match rec_category record, rec_category_id record with
    | Some (String a name), None =>
        let '(cat', c) := get_or_create_category cat (String a name) None None in
        (cat', Some (cat_id c))
    | _, given => (cat, given)
    end in
  match resolved with
  | None => (cat, created, (skipped + 1)%Z)
  | Some cid =>
      let poi := {| poi_id := next_poi_id (catalog_pois cat);
                    poi_name := rec_name record;
                    category_id := cid;
                    poi_latitude := rec_latitude record;
                    poi_longitude := rec_longitude record;
                    poi_rating := rec_rating record |} in
      ({| catalog_categories := catalog_categories cat;
          catalog_pois := catalog_pois cat ++ [poi] |},
       (created + 1)%Z, skipped)
  end.

(** [POIService.bulk_create]: the catalog after the commit, and
    [(created, skipped)]. *)
Definition bulk_create (cat : Catalog) (records : list POIRecord)
  : Catalog * (Z * Z) :=
  let '(cat', created, skipped) := fold_left bulk_create_step records (cat, 0%Z, 0%Z) in
  (cat', (created, skipped)).

End POIWrites.

(** ** The ranking endpoint of [api/scores.py] and the batch command *)

(** The JSON body of [get_scores]. *)
Inductive ScoresBody : Type :=
| ScoresError (error : string)
| ScoresItems (items : list (PropertyScore * Property)) (total : nat).

(** [get_scores]: the body and the status. *)
Definition api_get_scores (db : DB) (jwt_user_id profile_id : Z) : ScoresBody * Z :=
  match get_profile db profile_id with
  | Some profile =>
      if negb (user_id profile =? jwt_user_id)%Z
      then (ScoresError "Profile not found", 404%Z)
      else
        let ranked := get_ranked_properties db profile_id in
        (ScoresItems ranked (length ranked), 200%Z)
  | None => (ScoresError "Profile not found", 404%Z)
  end.

(** What [scoring recalc] prints last. *)
Inductive RecalcReport : Type :=
  | NoProfilesFound
  | RecalculationComplete (total : Z).

Section Recalculate.
Variable haversine_distance : Q -> Q -> Q -> Q -> Q.
Variable parse_float : string -> option Q.

(** The loop of [recalculate_all] over the profiles read at the start; each
    [compute_scores] commits on its own, at the clock reading [clock] gives
    for its profile. *)
Fixpoint recalculate_loop (clock : Z -> Z) (profiles : list SearchProfile)
  (db : DB) (total : Z) : DB * result Z :=
  match profiles with
  | [] => (db, Ok total)
  | profile :: rest =>
      match compute_scores haversine_distance parse_float db
                           (clock (profile_id profile)) (profile_id profile) with
      | (db', Ok count) => recalculate_loop clock rest db' (total + count)%Z
      | (db', Raise e) => (db', Raise e)
      end
  end.

(** [scoring recalc]: the database it leaves and its closing line, which is
    ["No profiles found."] when there is no profile and the total
    otherwise. *)
Definition recalculate_all (clock : Z -> Z) (db : DB) : DB * result RecalcReport :=
  match search_profiles db with
  | [] => (db, Ok NoProfilesFound)
  | profiles =>
      match recalculate_loop clock profiles db 0%Z with
      | (db', Ok total) => (db', Ok (RecalculationComplete total))
      | (db', Raise e) => (db', Raise e)
      end
  end.

End Recalculate.

(** ** Vocabulary of the further statements *)

(** The POIs a density rule counts: of category [cat], with a present
    non-zero latitude and longitude, at most [radius] away. *)
Definition counted_poi (distance : Q -> Q -> Q -> Q -> Q) (cat : Z)
  (lat lon radius : Q) (p : POI) : bool :=
  (category_id p =? cat)%Z
  && match poi_latitude p, poi_longitude p with
     | Some la, Some lo =>
         negb (Qeq_bool la 0) && negb (Qeq_bool lo 0)
         && Qle_bool (distance lat lon la lo) radius
     | _, _ => false
     end.

(** The radius a rule works with: [rule.max_distance_m or 1000.0]. *)
Definition rule_radius (rule : ScoringRule) (M : Q) : Prop :=
  M = match max_distance_m rule with
      | Some m => if Qeq_bool m 0 then 1000 else m
      | None => 1000
      end.

(** The parameter bag of a rule, [rule.parameters or {}], read at [key]. *)
Definition rule_param (rule : ScoringRule) (key : string) : option json :=
  match parameters rule with
  | Some params => params !! key
  | None => None
  end.

(** A category id as the rules' JSON is meant to carry it, a number; what
    the query does with a string, a list or an object bound as the id is the
    database driver's affair. *)
Definition numeric_id (j : json) : Prop := exists q, j = JNum q.

(** A number [float()] converts: its magnitude is below [float_limit], as
    that of every float and of every integer a double can hold. *)
Definition in_float_range (q : Q) : Prop := Qabs q < float_limit.

(** The primary key of a score row. *)
Definition score_key (s : PropertyScore) : Z * Z :=
  (score_property_id s, score_profile_id s).

(** The distances, in order, of the results whose category name is [c]. *)
Definition distances_of (categories : list POICategory) (c : option string)
  (results : list NearbyItem) : list Q :=
  item_distance_m <$>
    List.filter (fun it => bool_decide (category_name_of categories (item_poi it) = c))
                results.

(** The entry stored under [c] in an insertion-ordered dict. *)
Definition assoc {V} (c : option string) (stats : list (option string * V)) : option V :=
  snd <$> find (fun e => bool_decide (e.1 = c)) stats.

(** The records [bulk_create] skips: no category id, and no category name
    or an empty one. *)
Definition skipped_record (r : POIRecord) : bool :=
  match rec_category_id r, rec_category r with
  | None, None => true
  | None, Some EmptyString => true
  | _, _ => false
  end.

(** The profiles a batch run scores: those with at least one rule. *)
Definition has_rules (p : SearchProfile) : bool :=
  match scoring_rules p with
  | [] => false
  | _ => true
  end.

(** ** Further scenarios *)

(** A density rule whose target count is zero. *)
Definition zero_target_rule : ScoringRule :=
  mk_rule 5 "poi_density" (Some 2%Z) (Some 500) 1
          (Some {[ "target_count"%string := JNum 0 ]}).

(** Two bedrooms wanted, with a tolerance of two. *)
Definition two_bedrooms_rule : ScoringRule :=
  mk_rule 6 "property_attr" None None 1
          (Some (<[ "attribute"%string := JStr "bedrooms" ]>
                 (<[ "ideal"%string := JNum 2 ]>
                  {[ "tolerance"%string := JNum 2 ]}))).

(** As many bedrooms wanted as no double can count. *)
Definition huge_ideal_rule : ScoringRule :=
  mk_rule 9 "property_attr" None None 1
          (Some (<[ "attribute"%string := JStr "bedrooms" ]>
                 {[ "ideal"%string := JNum (inject_Z (10 ^ 400)) ]})).

(** A rule on an attribute that listings do not have. *)
Definition garden_rule : ScoringRule :=
  mk_rule 7 "property_attr" None None 1
          (Some (<[ "attribute"%string := JStr "garden" ]>
                 {[ "ideal"%string := JNum 1 ]})).

Definition walkability_rule (categories : list json) : ScoringRule :=
  mk_rule 8 "walkability" None (Some 1000) 1
          (Some {[ "categories"%string := JList categories ]}).

(** A station on the prime meridian, and a catalog that holds it. *)
Definition greenwich_station : POI :=
  mk_poi 40 1 (Some (51477 # 1000)) (Some 0).

Definition greenwich_db : DB :=
  {| properties := [];
     pois := [greenwich_station];
     property_poi_distances := [];
     search_profiles := [];
     property_scores := [] |}.

(** Two listings and two profiles, one of them without rules. *)
Definition batch_db : DB :=
  {| properties := [barcelona; neighbour];
     pois := [metro_station];
     property_poi_distances :=
       [ {| dist_property_id := 1; dist_poi_id := 10; distance_m := 400 |};
         {| dist_property_id := 2; dist_poi_id := 10; distance_m := 400 |} ];
     search_profiles := [metro_profile; empty_profile];
     property_scores := [] |}.

(** * Properties *)

(** ** Comparisons and rounding *)

Lemma Qltb_lt a b : Qltb a b = true <-> a < b.
Proof.
  unfold Qltb. rewrite negb_true_iff. split.
  - intros H. apply Qnot_le_lt. intros Hle.
    apply Qle_bool_iff in Hle. congruence.
  - intros H. destruct (Qle_bool b a) eqn:E; [|reflexivity].
    apply Qle_bool_iff in E. exfalso. exact (Qlt_not_le _ _ H E).
Qed.

Lemma Qltb_ge a b : Qltb a b = false <-> b <= a.
Proof.
  unfold Qltb. rewrite negb_false_iff. apply Qle_bool_iff.
Qed.


Lemma Qeq_bool_false_neq a b : Qeq_bool a b = false <-> ~ a == b.
Proof.
  split.
  - intros H E. apply Qeq_bool_iff in E. congruence.
  - intros H. destruct (Qeq_bool a b) eqn:E; [|reflexivity].
    apply Qeq_bool_iff in E. contradiction.
Qed.

Lemma Qltb_proper a a' b b' : a == a' -> b == b' -> Qltb a b = Qltb a' b'.
Proof.
  intros Ha Hb. destruct (Qltb a' b') eqn:E.
  - apply Qltb_lt. apply Qltb_lt in E. lra.
  - apply Qltb_ge. apply Qltb_ge in E. lra.
Qed.

Lemma py_max_spec a b : py_max a b == Qmax a b.
Proof.
  unfold py_max. destruct (Qltb a b) eqn:E.
  - apply Qltb_lt in E. symmetry. apply Q.max_r. lra.
  - apply Qltb_ge in E. symmetry. apply Q.max_l. lra.
Qed.

Lemma py_max_lower a b : a <= py_max a b.
Proof.
  unfold py_max. destruct (Qltb a b) eqn:E; [apply Qltb_lt in E|]; lra.
Qed.

Lemma py_min_le_l a b : py_min a b <= a.
Proof.
  unfold py_min. destruct (Qltb b a) eqn:E; [apply Qltb_lt in E|]; lra.
Qed.

Lemma py_min_le_r a b : py_min a b <= b.
Proof.
  unfold py_min. destruct (Qltb b a) eqn:E; [|apply Qltb_ge in E]; lra.
Qed.

Lemma py_min_cases a b : py_min a b = a \/ py_min a b = b.
Proof. unfold py_min. destruct (Qltb b a); auto. Qed.

(** The running minimum of [min(iterable)] is a member of the iterable and a
    lower bound of it. *)
Lemma fold_py_min_least (l : list Q) (x : Q) :
  In (fold_left py_min l x) (x :: l)
  /\ forall y, In y (x :: l) -> fold_left py_min l x <= y.
Proof.
  revert x. induction l as [|a l IH]; intros x; simpl.
  - split; [auto|]. intros y [<-|[]]. lra.
  - destruct (IH (py_min x a)) as [Hin Hle]. split.
    + destruct Hin as [Hin|Hin]; [|auto].
      rewrite <- Hin. destruct (py_min_cases x a) as [-> | ->]; auto.
    + intros y Hy.
      assert (Hm : fold_left py_min l (py_min x a) <= py_min x a)
        by (apply Hle; left; reflexivity).
      destruct Hy as [<-|[<-|Hy]].
      * pose proof (py_min_le_l x a). lra.
      * pose proof (py_min_le_r x a). lra.
      * apply Hle. right. exact Hy.
Qed.

Lemma least_unique d d' l : least d l -> least d' l -> d == d'.
Proof.
  intros [Hin Hle] [Hin' Hle']. apply Qle_antisym; auto.
Qed.

Lemma py_min_list_least (l : list Q) :
  l <> [] -> exists d, py_min_list l = Ok d /\ least d l.
Proof.
  destruct l as [|x t]; [congruence|]. intros _.
  exists (fold_left py_min t x). split; [reflexivity|].
  apply fold_py_min_least.
Qed.

Lemma round_half_even_proper x y : x == y -> round_half_even x = round_half_even y.
Proof.
  intros E. unfold round_half_even.
  assert (Hf : Qfloor x = Qfloor y) by (rewrite E; reflexivity).
  rewrite Hf.
  rewrite (Qltb_proper (x - inject_Z (Qfloor y)) (y - inject_Z (Qfloor y))
                       (1 # 2) (1 # 2)) by lra.
  rewrite (Qltb_proper (1 # 2) (1 # 2) (x - inject_Z (Qfloor y))
                       (y - inject_Z (Qfloor y))) by lra.
  reflexivity.
Qed.

Lemma round_half_even_bounds (a b : Z) (x : Q) :
  inject_Z a <= x -> x <= inject_Z b ->
  (a <= round_half_even x <= b)%Z.
Proof.
  intros Ha Hb.
  assert (Hfa : (a <= Qfloor x)%Z).
  { rewrite <- (Qfloor_Z a). apply Qfloor_resp_le. exact Ha. }
  assert (Hfb : (Qfloor x <= b)%Z).
  { rewrite <- (Qfloor_Z b). apply Qfloor_resp_le. exact Hb. }
  unfold round_half_even.
  destruct (Qltb (x - inject_Z (Qfloor x)) (1 # 2)) eqn:E1; [lia|].
  apply Qltb_ge in E1.
  assert (Hlt : (Qfloor x < b)%Z).
  { destruct (Z.eq_dec (Qfloor x) b) as [Heq|Hne]; [|lia].
    exfalso. rewrite Heq in E1. lra. }
  destruct (Qltb (1 # 2) (x - inject_Z (Qfloor x))); [lia|].
  destruct (Z.even (Qfloor x)); lia.
Qed.

Lemma py_round_proper x y n : x == y -> py_round x n == py_round y n.
Proof.
  intros E. unfold py_round.
  set (scale := inject_Z (10 ^ Z.of_nat n)).
  rewrite (round_half_even_proper (x * scale) (y * scale)); [reflexivity|].
  rewrite E. reflexivity.
Qed.

Lemma py_round_2_bounds x : 0 <= x -> x <= 100 -> 0 <= py_round x 2 /\ py_round x 2 <= 100.
Proof.
  intros H0 H100. unfold py_round.
  change (inject_Z (10 ^ Z.of_nat 2)) with (inject_Z 100).
  destruct (round_half_even_bounds 0 10000 (x * inject_Z 100)) as [Hlo Hhi].
  - change (inject_Z 0) with 0. change (inject_Z 100) with 100. lra.
  - change (inject_Z 10000) with 10000. change (inject_Z 100) with 100. lra.
  - set (z := round_half_even (x * inject_Z 100)) in *.
    assert (Hlo' : inject_Z 0 <= inject_Z z) by (rewrite <- Zle_Qle; exact Hlo).
    assert (Hhi' : inject_Z z <= inject_Z 10000) by (rewrite <- Zle_Qle; exact Hhi).
    change (inject_Z 0) with 0 in Hlo'. change (inject_Z 10000) with 10000 in Hhi'.
    change (inject_Z 100) with 100.
    split.
    + apply Qle_shift_div_l; lra.
    + apply Qle_shift_div_r; lra.
Qed.

(** ** Stable sorting *)

Section StableSort.
Context {A : Type} (before : A -> A -> bool) (R : A -> A -> Prop).

Hypothesis before_true : forall x y, before x y = true -> R x y.
Hypothesis before_false : forall x y, before x y = false -> R y x.
Hypothesis R_trans : forall x y z, R x y -> R y z -> R x z.

Lemma stable_insert_perm x l : Permutation (stable_insert before x l) (x :: l).
Proof using Type.
  induction l as [|y t IH]; simpl; [reflexivity|].
  destruct (before y x); [|reflexivity].
  rewrite IH. apply perm_swap.
Qed.

Lemma stable_sort_perm l : Permutation (stable_sort before l) l.
Proof using Type.
  induction l as [|x t IH]; simpl; [reflexivity|].
  rewrite stable_insert_perm. apply perm_skip. exact IH.
Qed.

Lemma stable_insert_sorted x l :
  StronglySorted R l -> StronglySorted R (stable_insert before x l).
Proof using before_true before_false R_trans.
  induction 1 as [|y t Hs IH Hall]; simpl.
  - constructor; constructor.
  - destruct (before y x) eqn:E.
    + constructor; [exact IH|].
      rewrite List.Forall_forall in Hall |- *. intros z Hz.
      apply (Permutation_in _ (stable_insert_perm x t)) in Hz.
      destruct Hz as [<-|Hz]; [apply before_true; exact E|auto].
    + constructor; [constructor; assumption|].
      constructor; [apply before_false; exact E|].
      rewrite List.Forall_forall in Hall |- *. intros z Hz.
      apply R_trans with y; [apply before_false; exact E|auto].
Qed.

Lemma stable_sort_sorted l : StronglySorted R (stable_sort before l).
Proof using before_true before_false R_trans.
  induction l as [|x t IH]; simpl; [constructor|].
  apply stable_insert_sorted. exact IH.
Qed.
End StableSort.

Lemma sort_by_perm {A} (key : A -> Q) l : Permutation (sort_by key l) l.
Proof. apply stable_sort_perm. Qed.

Lemma sort_by_sorted {A} (key : A -> Q) l :
  StronglySorted (fun x y => key x <= key y) (sort_by key l).
Proof.
  apply stable_sort_sorted.
  - intros x y H. apply Qltb_lt in H. lra.
  - intros x y H. apply Qltb_ge in H. exact H.
  - intros x y z H1 H2. lra.
Qed.

Lemma sort_by_desc_perm {A} (key : A -> Q) l : Permutation (sort_by_desc key l) l.
Proof. apply stable_sort_perm. Qed.

Lemma sort_by_desc_sorted {A} (key : A -> Q) l :
  StronglySorted (fun x y => key y <= key x) (sort_by_desc key l).
Proof.
  apply stable_sort_sorted.
  - intros x y H. apply Qltb_lt in H. lra.
  - intros x y H. apply Qltb_ge in H. exact H.
  - intros x y z H1 H2. lra.
Qed.

(** ** The proximity index *)

Section ProximityIndex.
Variable haversine_distance : Q -> Q -> Q -> Q -> Q.

(** The category filter as the query applies it: an id of [0] is falsy in
    [if category_id:], so it filters nothing, like an absent one. *)
Lemma located_pois_spec db category p la lo :
  (p, la, lo) ∈ located_pois db category <->
  p ∈ pois db /\ poi_latitude p = Some la /\ poi_longitude p = Some lo
  /\ (forall c, category = Some c -> c <> 0%Z -> category_id p = c).
Proof.
  unfold located_pois. rewrite list_elem_of_omap. split.
  - intros (q & Hq & Hf).
    destruct (poi_latitude q) as [la'|] eqn:Ela; [|discriminate].
    destruct (poi_longitude q) as [lo'|] eqn:Elo; [|discriminate].
    destruct category as [c|]; simpl in Hf.
    + destruct (c =? 0)%Z eqn:Ec.
      * inversion Hf; subst. repeat split; auto.
        intros c' [= <-] Hne. apply Z.eqb_eq in Ec. contradiction.
      * destruct (category_id q =? c)%Z eqn:Eq; [|discriminate].
        inversion Hf; subst. repeat split; auto.
        intros c' [= <-] _. apply Z.eqb_eq. exact Eq.
    + inversion Hf; subst. repeat split; auto. discriminate.
  - intros (Hp & Ela & Elo & Hcat). exists p. split; [exact Hp|].
    rewrite Ela, Elo. destruct category as [c|]; simpl; [|reflexivity].
    destruct (c =? 0)%Z eqn:Ec; [reflexivity|].
    apply Z.eqb_neq in Ec. rewrite (Hcat c eq_refl Ec), Z.eqb_refl. reflexivity.
Qed.

(** C2 (as amended).  [find_nearby] returns exactly the POIs that have both
    coordinates, lie within [radius_m] of the centre (the boundary included)
    and, when a non-zero category id is given, are of exactly that category;
    each comes with its distance rounded to one decimal, and the sequence
    is non-decreasing in that reported distance. *)
Theorem find_nearby_contract (db : DB) (lat lng radius_m : Q) (category : option Z) :
  (forall it : NearbyItem,
      it ∈ find_nearby haversine_distance db lat lng radius_m category <->
      exists la lo,
        item_poi it ∈ pois db
        /\ poi_latitude (item_poi it) = Some la
        /\ poi_longitude (item_poi it) = Some lo
        /\ (forall c, category = Some c -> c <> 0%Z -> category_id (item_poi it) = c)
        /\ haversine_distance lat lng la lo <= radius_m
        /\ item_distance_m it = py_round (haversine_distance lat lng la lo) 1)
  /\ StronglySorted (fun a b => item_distance_m a <= item_distance_m b)
       (find_nearby haversine_distance db lat lng radius_m category).
Proof.
  split; [|apply sort_by_sorted].
  intros it. unfold find_nearby. rewrite sort_by_perm.
  rewrite list_elem_of_omap. split.
  - intros ([[p la] lo] & Hin & Hf).
    apply located_pois_spec in Hin. destruct Hin as (Hp & Ela & Elo & Hcat).
    destruct (Qle_bool (haversine_distance lat lng la lo) radius_m) eqn:E;
      [|discriminate].
    inversion Hf; subst; simpl. apply Qle_bool_iff in E.
    exists la, lo. repeat split; auto.
  - intros (la & lo & Hp & Ela & Elo & Hcat & Hle & Hd).
    exists (item_poi it, la, lo). split.
    + apply located_pois_spec. repeat split; auto.
    + apply Qle_bool_iff in Hle. rewrite Hle.
      destruct it as [p d]; simpl in *. rewrite Hd. reflexivity.
Qed.

End ProximityIndex.

(** ** Proximity rules *)

Lemma as_truthy_float_some q : ~ q == 0 -> as_truthy_float (Some q) = Some q.
Proof.
  intros H. simpl. apply Qeq_bool_false_neq in H. rewrite H. reflexivity.
Qed.

Lemma as_truthy_float_zero o :
  o = None \/ (exists q, o = Some q /\ q == 0) -> as_truthy_float o = None.
Proof.
  intros [->|(q & -> & Hq)]; [reflexivity|].
  simpl. apply Qeq_bool_iff in Hq. rewrite Hq. reflexivity.
Qed.

Lemma as_truthy_float_inv o q :
  as_truthy_float o = Some q -> o = Some q /\ ~ q == 0.
Proof.
  destruct o as [q'|]; simpl; [|discriminate].
  destruct (Qeq_bool q' 0) eqn:E; [discriminate|].
  intros [= <-]. split; [reflexivity|]. apply Qeq_bool_false_neq. exact E.
Qed.

Lemma as_truthy_int_some z : z <> 0%Z -> as_truthy_int (Some z) = Some z.
Proof.
  intros H. simpl. apply Z.eqb_neq in H. rewrite H. reflexivity.
Qed.

Lemma float_or_nonzero o default : ~ default == 0 -> ~ float_or o default == 0.
Proof.
  intros Hd. destruct o as [q|]; simpl; [|exact Hd].
  destruct (Qeq_bool q 0) eqn:E; [exact Hd|].
  apply Qeq_bool_false_neq. exact E.
Qed.

Lemma decay_spec d d' M : d == d' -> decay d M == proximity_raw d' M.
Proof.
  intros E. unfold decay, proximity_raw.
  destruct (Qltb M d) eqn:E1.
  - apply Qltb_lt in E1.
    destruct (Qle_bool d' M) eqn:E2; [|reflexivity].
    apply Qle_bool_iff in E2. lra.
  - apply Qltb_ge in E1.
    destruct (Qle_bool d' M) eqn:E2.
    + rewrite py_max_spec, E. reflexivity.
    + exfalso. assert (H : d' <= M) by lra.
      apply Qle_bool_iff in H. congruence.
Qed.

Lemma proximity_raw_at_zero M : 0 < M -> proximity_raw 0 M == 1.
Proof.
  intros HM. unfold proximity_raw.
  assert (H : 0 <= M) by lra. apply Qle_bool_iff in H. rewrite H.
  rewrite Q.max_r; [field; lra|].
  assert (E : 1 - 0 / M == 1) by (field; lra). lra.
Qed.

Lemma proximity_raw_at_radius M : ~ M == 0 -> proximity_raw M M == 0.
Proof.
  intros HM. unfold proximity_raw.
  assert (H : M <= M) by lra. apply Qle_bool_iff in H. rewrite H.
  assert (E : 1 - M / M == 0) by (field; exact HM).
  rewrite E. apply Q.max_l. lra.
Qed.

Lemma precomputed_distances_spec db prop_id cat d :
  d ∈ precomputed_distances db prop_id cat <-> cached_distance_to db prop_id cat d.
Proof.
  unfold precomputed_distances, cached_distance_to.
  rewrite list_elem_of_In, in_flat_map. split.
  - intros (row & Hrow & Hd).
    destruct (dist_property_id row =? prop_id)%Z eqn:E; [|destruct Hd].
    apply in_map_iff in Hd. destruct Hd as (p & <- & Hp).
    apply filter_In in Hp. destruct Hp as [Hp Hb].
    apply andb_true_iff in Hb. destruct Hb as [Hb1 Hb2].
    exists row, p. rewrite !list_elem_of_In.
    apply Z.eqb_eq in E, Hb1, Hb2. repeat split; auto.
  - intros (row & p & Hrow & E & Hp & Hb1 & Hb2 & ->).
    exists row. apply list_elem_of_In in Hrow. apply list_elem_of_In in Hp.
    split; [exact Hrow|].
    apply Z.eqb_eq in E. rewrite E.
    apply in_map_iff. exists p. split; [reflexivity|].
    apply filter_In. split; [exact Hp|].
    apply andb_true_iff. split; apply Z.eqb_eq; auto.
Qed.

Lemma pois_of_category_spec db cat p :
  p ∈ pois_of_category db cat <-> p ∈ pois db /\ category_id p = cat.
Proof.
  unfold pois_of_category. rewrite !list_elem_of_In, filter_In.
  rewrite Z.eqb_eq. reflexivity.
Qed.

Section RuleEvaluation.
Variable haversine_distance : Q -> Q -> Q -> Q -> Q.
Variable parse_float : string -> option Q.

Lemma live_distances_spec db cat lat lon d :
  d ∈ live_distances haversine_distance lat lon (pois_of_category db cat)
  <-> live_distance_to haversine_distance db cat lat lon d.
Proof.
  unfold live_distances, live_distance_to. rewrite list_elem_of_omap. split.
  - intros (p & Hp & Hf). apply pois_of_category_spec in Hp. destruct Hp as [Hp Hc].
    destruct (as_truthy_float (poi_latitude p)) as [la|] eqn:Ela; [|discriminate].
    destruct (as_truthy_float (poi_longitude p)) as [lo|] eqn:Elo; [|discriminate].
    apply as_truthy_float_inv in Ela, Elo.
    destruct Ela as [Ela Hla], Elo as [Elo Hlo].
    exists p, la, lo. inversion Hf. repeat split; auto.
  - intros (p & la & lo & Hp & Hc & Ela & Hla & Elo & Hlo & ->).
    exists p. split; [apply pois_of_category_spec; auto|].
    rewrite Ela, Elo, !as_truthy_float_some by assumption. reflexivity.
Qed.

Lemma nearest_least (P : Q -> Prop) (l : list Q) d :
  (forall x, x ∈ l <-> P x) -> nearest P d -> least d l.
Proof.
  intros H [Hd Hle]. split.
  - apply list_elem_of_In, H, Hd.
  - intros y Hy. apply Hle, H, list_elem_of_In, Hy.
Qed.

(** C3 (as amended).  For a listing whose latitude and longitude are present
    and non-zero and a proximity rule with a non-zero category id, let [M] be
    [max_distance_m], or 1000 when that is absent or zero.  With [d] the
    smallest pre-computed distance from the listing to a POI of the category
    or, when there is no pre-computed distance, the smallest haversine
    distance to a POI of the category with present non-zero coordinates, the
    raw value is [max(0, 1 - d/M)] when [d <= M] and [0.0] when [d > M]; it is
    [0.0] when no POI of the category exists; [d == 0] gives 1.0 for positive
    [M] and [d == M] gives 0.0. *)
Theorem proximity_raw_value (db : DB) (rule : ScoringRule) (prop : Property)
  (lat lon M : Q) (cat : Z) :
  latitude prop = Some lat -> ~ lat == 0 ->
  longitude prop = Some lon -> ~ lon == 0 ->
  poi_category_id rule = Some cat -> cat <> 0%Z ->
  M = match max_distance_m rule with
      | Some m => if Qeq_bool m 0 then 1000 else m
      | None => 1000
      end ->
  (forall d, nearest (cached_distance_to db (id prop) cat) d ->
     exists v, _eval_poi_proximity haversine_distance db rule prop = Ok v
               /\ v == proximity_raw d M)
  /\ ((forall d, ~ cached_distance_to db (id prop) cat d) ->
      forall d, nearest (live_distance_to haversine_distance db cat lat lon) d ->
        exists v, _eval_poi_proximity haversine_distance db rule prop = Ok v
                  /\ v == proximity_raw d M)
  /\ ((forall p, p ∈ pois db -> category_id p <> cat) ->
      _eval_poi_proximity haversine_distance db rule prop = Ok 0)
  /\ (0 < M -> proximity_raw 0 M == 1)
  /\ proximity_raw M M == 0.
Proof.
  intros Elat Hlat Elon Hlon Ecat Hcat EM.
  assert (HM : M = float_or (max_distance_m rule) 1000) by exact EM.
  assert (Hno_cache : (forall d, ~ cached_distance_to db (id prop) cat d) ->
                      nearest_precomputed db (id prop) cat = None).
  { intros Hnone. unfold nearest_precomputed.
    destruct (precomputed_distances db (id prop) cat) as [|x t] eqn:E; [reflexivity|].
    exfalso. apply (Hnone x), precomputed_distances_spec. rewrite E. left. }
  unfold _eval_poi_proximity.
  rewrite Elat, Elon, Ecat, !as_truthy_float_some, as_truthy_int_some by assumption.
  rewrite <- HM.
  split; [|split; [|split; [|split]]].
  - intros d Hd.
    apply (nearest_least _ (precomputed_distances db (id prop) cat)) in Hd;
      [|intros x; apply precomputed_distances_spec].
    unfold nearest_precomputed.
    destruct (precomputed_distances db (id prop) cat) as [|x t] eqn:E.
    { destruct Hd as [[] _]. }
    eexists. split; [reflexivity|].
    apply decay_spec. eapply least_unique; [|exact Hd].
    apply fold_py_min_least.
  - intros Hnone d Hd. rewrite (Hno_cache Hnone).
    apply (nearest_least _ (live_distances haversine_distance lat lon
                                           (pois_of_category db cat))) in Hd;
      [|intros x; apply live_distances_spec].
    destruct (pois_of_category db cat) as [|p ps] eqn:E.
    { destruct Hd as [[] _]. }
    destruct (py_min_list_least
                (live_distances haversine_distance lat lon (p :: ps)))
      as (d0 & Hmin & Hleast).
    { intros Hnil. destruct Hd as [Hin _]. rewrite Hnil in Hin. destruct Hin. }
    rewrite Hmin. simpl. eexists. split; [reflexivity|].
    apply decay_spec. eapply least_unique; eassumption.
  - intros Hnone.
    assert (Hps : pois_of_category db cat = []).
    { destruct (pois_of_category db cat) as [|p ps] eqn:E; [reflexivity|].
      exfalso. assert (Hp : p ∈ pois_of_category db cat) by (rewrite E; left).
      apply pois_of_category_spec in Hp. destruct Hp as [Hp Hc].
      exact (Hnone p Hp Hc). }
    rewrite Hno_cache, Hps; [reflexivity|].
    intros d (row & p & _ & _ & Hp & _ & Hc & _). exact (Hnone p Hp Hc).
  - apply proximity_raw_at_zero.
  - apply proximity_raw_at_radius. rewrite HM. apply float_or_nonzero.
    intros H. discriminate H.
Qed.

(** ** Rule dispatch *)

(** A rule whose type is none of the four known tags scores 0.0. *)
Lemma unknown_rule_type_scores_zero db rule prop :
  rule_type rule <> "poi_proximity"%string ->
  rule_type rule <> "poi_density"%string ->
  rule_type rule <> "property_attr"%string ->
  rule_type rule <> "walkability"%string ->
  _evaluate_rule haversine_distance parse_float db rule prop = Ok 0.
Proof.
  intros H1 H2 H3 H4. unfold _evaluate_rule.
  apply String.eqb_neq in H1, H2, H3, H4.
  rewrite H1, H2, H3, H4. reflexivity.
Qed.

(** *** Breakdown keys *)

Lemma pretty_N_go_free x s : free_of "_" s -> free_of "_" (pretty_N_go x s).
Proof.
  revert s. induction (N.lt_wf_0 x) as [x _ IH]; intros s Hs.
  assert (x = 0 \/ 0 < x)%N as [->|Hx] by lia.
  - rewrite pretty_N_go_0. exact Hs.
  - rewrite pretty_N_go_step by exact Hx. apply IH.
    + apply N.div_lt; [exact Hx|reflexivity].
    + split; [|exact Hs].
      unfold pretty_N_char. repeat case_match; discriminate.
Qed.

Lemma pretty_Z_free (z : Z) : free_of "_" (pretty z).
Proof.
  assert (HN : forall n : N, free_of "_" (pretty n)).
  { intros n. unfold pretty, pretty_N. case_decide.
    - split; [discriminate|exact I].
    - apply pretty_N_go_free. exact I. }
  destruct z as [|p|p]; unfold pretty, pretty_Z.
  - split; [discriminate|exact I].
  - apply HN.
  - split; [discriminate|]. apply HN.
Qed.

Lemma split_at_first c s1 s2 t1 t2 :
  free_of c s1 -> free_of c s2 ->
  s1 +:+ String c t1 = s2 +:+ String c t2 -> s1 = s2 /\ t1 = t2.
Proof.
  revert s2. induction s1 as [|a s1 IH]; intros [|b s2]; simpl.
  - intros _ _ [= ->]. auto.
  - intros _ [Hb _] [= <- _]. contradiction.
  - intros [Ha _] _ [= -> _]. contradiction.
  - intros [_ H1] [_ H2] [= -> E]. destruct (IH s2 H1 H2 E) as [-> ->]. auto.
Qed.

(** The key determines the rule's id and type. *)
Lemma breakdown_key_inj r1 r2 :
  breakdown_key r1 = breakdown_key r2 ->
  rule_id r1 = rule_id r2 /\ rule_type r1 = rule_type r2.
Proof.
  unfold breakdown_key. simpl. intros [= E].
  apply split_at_first in E; try apply pretty_Z_free.
  destruct E as [E ->]. split; [|reflexivity].
  apply (inj pretty). exact E.
Qed.

(** *** The aggregation loop *)

Lemma weight_total_nonneg rules :
  Forall (fun r => 0 <= weight r /\ weight r <= 1) rules -> 0 <= weight_total rules.
Proof.
  induction 1 as [|r rs [H0 _] _ IH]; simpl; lra.
Qed.

Lemma weighted_sum_bounds rules raws :
  Forall (fun v => 0 <= v /\ v <= 1) raws ->
  Forall (fun r => 0 <= weight r /\ weight r <= 1) rules ->
  0 <= weighted_sum rules raws /\ weighted_sum rules raws <= weight_total rules.
Proof.
  intros Hraws. revert rules.
  induction Hraws as [|v vs [Hv0 Hv1] _ IH]; intros rules Hrules.
  - pose proof (weight_total_nonneg rules Hrules).
    destruct rules; simpl in *; lra.
  - destruct Hrules as [|r rs [Hw0 Hw1] Hrs]; simpl; [lra|].
    destruct (IH rs Hrs) as [IH0 IH1].
    assert (0 <= v * weight r) by nra.
    assert (v * weight r <= weight r) by nra.
    lra.
Qed.

Lemma aggregated_score_bounds rules raws :
  Forall (fun v => 0 <= v /\ v <= 1) raws ->
  Forall (fun r => 0 <= weight r /\ weight r <= 1) rules ->
  0 < weight_total rules ->
  0 <= aggregated_score rules raws /\ aggregated_score rules raws <= 100.
Proof.
  intros Hraws Hrules HW.
  destruct (weighted_sum_bounds rules raws Hraws Hrules) as [H0 H1].
  unfold aggregated_score.
  apply Qltb_lt in HW. rewrite HW. apply Qltb_lt in HW.
  apply py_round_2_bounds.
  - apply Qmult_le_0_compat; [|lra]. apply Qle_shift_div_l; lra.
  - assert (H : weighted_sum rules raws / weight_total rules <= 1)
      by (apply Qle_shift_div_r; lra).
    lra.
Qed.

Lemma score_loop_spec db prop rules raws total weight_sum bd :
  Forall2 (fun r v => _evaluate_rule haversine_distance parse_float db r prop = Ok v)
          rules raws ->
  exists total' weight_sum',
    score_loop haversine_distance parse_float db prop rules (total, weight_sum, bd)
    = Ok (total', weight_sum',
          fold_left (fun m rv => <[breakdown_key rv.1 := breakdown_entry rv.1 rv.2]> m)
                    (zip rules raws) bd)
    /\ total' == total + weighted_sum rules raws
    /\ weight_sum' == weight_sum + weight_total rules.
Proof.
  intros H. revert total weight_sum bd.
  induction H as [|r v rs vs Hr _ IH]; intros total weight_sum bd; simpl.
  - exists total, weight_sum. repeat split; lra.
  - rewrite Hr. simpl.
    destruct (IH (total + v * weight r) (weight_sum + weight r)
                 (<[breakdown_key r := breakdown_entry r v]> bd))
      as (t & w & -> & Ht & Hw).
    exists t, w. repeat split; lra.
Qed.

Lemma fold_breakdown_dom (rvs : list (ScoringRule * Q)) (bd : gmap string BreakdownEntry) k :
  is_Some (fold_left (fun m rv => <[breakdown_key rv.1 := breakdown_entry rv.1 rv.2]> m)
                     rvs bd !! k)
  <-> is_Some (bd !! k) \/ exists rv, rv ∈ rvs /\ k = breakdown_key rv.1.
Proof.
  revert bd. induction rvs as [|[r v] rvs IH]; intros bd; simpl.
  - split; [auto|]. intros [H|(rv & Hin & _)]; [exact H|]. inversion Hin.
  - rewrite IH, lookup_insert_is_Some'. split.
    + intros [[<-|H]|(rv & Hin & ->)]; eauto.
      * right. exists (r, v). split; [left|reflexivity].
      * right. exists rv. split; [right; exact Hin|reflexivity].
    + intros [H|(rv & Hin & ->)]; [auto|].
      apply elem_of_cons in Hin. destruct Hin as [->|Hin]; [auto|].
      right. exists rv. auto.
Qed.

Lemma fold_breakdown_other (rvs : list (ScoringRule * Q)) (bd : gmap string BreakdownEntry) k :
  (forall rv, rv ∈ rvs -> breakdown_key rv.1 <> k) ->
  fold_left (fun m rv => <[breakdown_key rv.1 := breakdown_entry rv.1 rv.2]> m) rvs bd !! k
  = bd !! k.
Proof.
  revert bd. induction rvs as [|[r v] rvs IH]; intros bd Hne; simpl; [reflexivity|].
  rewrite IH.
  - apply lookup_insert_ne. apply (Hne (r, v)). left.
  - intros rv Hin. apply Hne. right. exact Hin.
Qed.

Lemma fold_breakdown_lookup rules raws (bd : gmap string BreakdownEntry) i r v :
  NoDup (rule_id <$> rules) ->
  rules !! i = Some r -> raws !! i = Some v ->
  fold_left (fun m rv => <[breakdown_key rv.1 := breakdown_entry rv.1 rv.2]> m)
            (zip rules raws) bd !! breakdown_key r
  = Some (breakdown_entry r v).
Proof.
  revert raws bd i. induction rules as [|r0 rs IH]; intros raws bd i Hnd Hr Hv.
  - destruct i; discriminate.
  - destruct raws as [|v0 vs]; [destruct i; discriminate|].
    apply NoDup_cons in Hnd. destruct Hnd as [Hnotin Hnd].
    destruct i as [|i]; simpl in *.
    + inversion Hr; inversion Hv; subst.
      rewrite fold_breakdown_other; [apply lookup_insert_eq|].
      intros [r' v'] Hin E. simpl in E.
      apply breakdown_key_inj in E. destruct E as [E _].
      apply Hnotin. rewrite <- E. apply list_elem_of_fmap.
      exists r'. split; [reflexivity|].
      apply elem_of_zip_l in Hin. exact Hin.
    + apply IH with i; assumption.
Qed.

Lemma py_round_zero n : py_round 0 n == 0.
Proof.
  unfold py_round.
  rewrite (round_half_even_proper _ 0) by lra.
  change (round_half_even 0) with 0%Z.
  apply Qmult_0_l.
Qed.

(** C1.  For every listing and every rule list, empty or not, whose rules
    each evaluate to a raw value, [raws] in order, the aggregated score equals
    [round(sum(raw*weight) / sum(weight) * 100, 2)] when the weight sum is
    positive and [0.0] otherwise; the breakdown holds exactly one key per
    rule identity, [rule_<id>_<type>], and under it the rule's rounded raw
    value, weight and rounded weighted value; and when every raw value and
    every weight is in [0,1] and the weight sum is positive, the total is in
    [0,100]. *)
Theorem score_property_aggregate (db : DB) (prop : Property)
  (rules : list ScoringRule) (raws : list Q) :
  Forall2 (fun r v => _evaluate_rule haversine_distance parse_float db r prop = Ok v)
          rules raws ->
  exists score bd,
    _score_property haversine_distance parse_float db prop rules = Ok (score, bd)
    /\ score == aggregated_score rules raws
    /\ (forall k, is_Some (bd !! k) <-> exists r, r ∈ rules /\ k = breakdown_key r)
    /\ (NoDup (rule_id <$> rules) ->
        forall i r v, rules !! i = Some r -> raws !! i = Some v ->
          bd !! breakdown_key r
          = Some {| raw_value := py_round v 3;
                    entry_weight := weight r;
                    weighted := py_round (v * weight r) 3 |})
    /\ (Forall (fun v => 0 <= v /\ v <= 1) raws ->
        Forall (fun r => 0 <= weight r /\ weight r <= 1) rules ->
        0 < weight_total rules ->
        0 <= score /\ score <= 100).
Proof.
  intros Hev.
  destruct (score_loop_spec db prop rules raws 0 0 ∅ Hev) as (t & w & Hloop & Ht & Hw).
  unfold _score_property. rewrite Hloop. simpl.
  eexists _, _. split; [reflexivity|].
  assert (Hscore :
    py_round (if Qltb 0 w then t / w * 100 else 0) 2 == aggregated_score rules raws).
  { unfold aggregated_score.
    rewrite (Qltb_proper 0 0 w (weight_total rules)) by lra.
    destruct (Qltb 0 (weight_total rules)) eqn:E.
    - apply Qltb_lt in E. apply py_round_proper.
      assert (Ht' : t == weighted_sum rules raws) by lra.
      assert (Hw' : w == weight_total rules) by lra.
      rewrite Ht', Hw'. reflexivity.
    - apply py_round_zero. }
  split; [exact Hscore|]. split; [|split].
  - intros k. rewrite fold_breakdown_dom, lookup_empty. split.
    + intros [[x Hx]|(rv & Hin & ->)]; [discriminate|].
      exists rv.1. split; [|reflexivity].
      destruct rv as [r v]. apply elem_of_zip_l in Hin. exact Hin.
    + intros (r & Hr & ->). right.
      apply list_elem_of_lookup in Hr. destruct Hr as [i Hi].
      destruct (Forall2_lookup_l _ _ _ _ _ Hev Hi) as (v & Hv & _).
      exists (r, v). split; [|reflexivity].
      apply list_elem_of_lookup. exists i.
      apply lookup_zip_with_Some. exists r, v. auto.
  - intros Hnd i r v Hr Hv. apply (fold_breakdown_lookup rules raws ∅ i r v Hnd Hr Hv).
  - intros Hraws Hrules HW.
    destruct (aggregated_score_bounds rules raws Hraws Hrules HW) as [H0 H100].
    rewrite Hscore. split; assumption.
Qed.

(** ** Listings and POIs at latitude or longitude zero *)

Lemma location_rules_need_truthy_coordinates db rule prop :
  as_truthy_float (latitude prop) = None \/ as_truthy_float (longitude prop) = None ->
  _eval_poi_proximity haversine_distance db rule prop = Ok 0
  /\ _eval_poi_density haversine_distance db rule prop = Ok 0
  /\ _eval_walkability haversine_distance db rule prop = Ok 0.
Proof.
  unfold _eval_poi_proximity, _eval_poi_density, _eval_walkability.
  intros H.
  destruct (as_truthy_float (latitude prop)), (as_truthy_float (longitude prop));
    try (repeat split; reflexivity).
  destruct H; discriminate.
Qed.

Lemma live_distances_app lat lon ps1 ps2 :
  live_distances haversine_distance lat lon (ps1 ++ ps2)
  = live_distances haversine_distance lat lon ps1
    ++ live_distances haversine_distance lat lon ps2.
Proof. apply omap_app. Qed.

(** C10.  When the latitude or the longitude of a listing is exactly [0.0],
    the proximity, density and walkability rules all evaluate to [0.0], the
    value they have for a listing whose coordinate is absent; and a POI with
    a zero latitude or longitude contributes no distance to the live
    computation, wherever it stands among the POIs. *)
Theorem zero_coordinate_as_absent (db : DB) (rule : ScoringRule) (prop : Property) :
  is_zero (latitude prop) \/ is_zero (longitude prop) ->
  _eval_poi_proximity haversine_distance db rule prop = Ok 0
  /\ _eval_poi_density haversine_distance db rule prop = Ok 0
  /\ _eval_walkability haversine_distance db rule prop = Ok 0
  /\ (forall prop' : Property,
        latitude prop' = None \/ longitude prop' = None ->
        _eval_poi_proximity haversine_distance db rule prop'
        = _eval_poi_proximity haversine_distance db rule prop
        /\ _eval_poi_density haversine_distance db rule prop'
           = _eval_poi_density haversine_distance db rule prop
        /\ _eval_walkability haversine_distance db rule prop'
           = _eval_walkability haversine_distance db rule prop)
  /\ (forall (p : POI) (lat lon : Q) (ps1 ps2 : list POI),
        is_zero (poi_latitude p) \/ is_zero (poi_longitude p) ->
        live_distances haversine_distance lat lon (ps1 ++ p :: ps2)
        = live_distances haversine_distance lat lon (ps1 ++ ps2)).
Proof.
  intros Hzero.
  assert (Hprop : as_truthy_float (latitude prop) = None
                  \/ as_truthy_float (longitude prop) = None).
  { destruct Hzero as [H|H]; [left|right]; apply as_truthy_float_zero; auto. }
  destruct (location_rules_need_truthy_coordinates db rule prop Hprop)
    as (Hp & Hd & Hw).
  split; [exact Hp|]. split; [exact Hd|]. split; [exact Hw|]. split.
  - intros prop' Habsent.
    assert (Hprop' : as_truthy_float (latitude prop') = None
                     \/ as_truthy_float (longitude prop') = None).
    { destruct Habsent as [H|H]; [left|right]; rewrite H; reflexivity. }
    destruct (location_rules_need_truthy_coordinates db rule prop' Hprop')
      as (Hp' & Hd' & Hw').
    rewrite Hp, Hd, Hw. auto.
  - intros p lat lon ps1 ps2 Hpz.
    rewrite !live_distances_app. f_equal.
    change (p :: ps2) with ([p] ++ ps2). rewrite live_distances_app.
    assert (E : live_distances haversine_distance lat lon [p] = []).
    { unfold live_distances. simpl.
      destruct Hpz as [H|H].
      - rewrite (as_truthy_float_zero (poi_latitude p)); [reflexivity|auto].
      - rewrite (as_truthy_float_zero (poi_longitude p)); [|auto].
        destruct (as_truthy_float (poi_latitude p)); reflexivity. }
    rewrite E. reflexivity.
Qed.

End RuleEvaluation.

(** ** The score store *)

Lemma same_score_at_refl rows i p : same_score_at rows rows i p.
Proof.
  unfold same_score_at. destruct (lookup_score rows i p); [|exact I].
  repeat split.
Qed.

Lemma same_score_at_sym rows1 rows2 i p :
  same_score_at rows1 rows2 i p -> same_score_at rows2 rows1 i p.
Proof.
  unfold same_score_at.
  destruct (lookup_score rows1 i p), (lookup_score rows2 i p); auto.
  intros (H1 & H2 & H3 & H4). repeat split; congruence.
Qed.

Lemma same_score_at_trans rows1 rows2 rows3 i p :
  same_score_at rows1 rows2 i p -> same_score_at rows2 rows3 i p ->
  same_score_at rows1 rows3 i p.
Proof.
  unfold same_score_at.
  destruct (lookup_score rows1 i p), (lookup_score rows2 i p),
    (lookup_score rows3 i p); try tauto.
  intros (H1 & H2 & H3 & H4) (H1' & H2' & H3' & H4'). repeat split; congruence.
Qed.

(** What the store answers after an upsert. *)
Lemma lookup_upsert_score rows i p s bd now j q :
  lookup_score (upsert_score rows i p s bd now) j q
  = if score_key_eqb j q {| score_property_id := i; score_profile_id := p;
                            total_score := s; breakdown := bd; computed_at := now |}
    then Some {| score_property_id := i; score_profile_id := p;
                 total_score := s; breakdown := bd; computed_at := now |}
    else lookup_score rows j q.
Proof.
  unfold lookup_score, score_key_eqb. simpl.
  induction rows as [|r rows IH]; simpl.
  - destruct ((i =? j)%Z && (p =? q)%Z); reflexivity.
  - unfold score_key_eqb.
    destruct ((score_property_id r =? i)%Z && (score_profile_id r =? p)%Z) eqn:E;
      simpl.
    + apply andb_true_iff in E. destruct E as [E1 E2].
      apply Z.eqb_eq in E1, E2. rewrite E1, E2.
      destruct ((i =? j)%Z && (p =? q)%Z); reflexivity.
    + destruct ((score_property_id r =? j)%Z && (score_profile_id r =? q)%Z) eqn:E';
        [|exact IH].
      apply andb_true_iff in E'. destruct E' as [E1 E2].
      apply Z.eqb_eq in E1, E2. subst j q.
      rewrite (Z.eqb_sym i), (Z.eqb_sym p), E. reflexivity.
Qed.

Lemma upsert_score_same_at rowsA rowsB i p s bd tA tB j q :
  same_score_at (upsert_score rowsA i p s bd tA) (upsert_score rowsB i p s bd tB) j q
  \/ (lookup_score (upsert_score rowsA i p s bd tA) j q = lookup_score rowsA j q
      /\ lookup_score (upsert_score rowsB i p s bd tB) j q = lookup_score rowsB j q).
Proof.
  unfold same_score_at. rewrite !lookup_upsert_score.
  unfold score_key_eqb. simpl.
  destruct ((i =? j)%Z && (p =? q)%Z); [left|right; auto].
  repeat split.
Qed.

Section BatchScoring.
Variable haversine_distance : Q -> Q -> Q -> Q -> Q.
Variable parse_float : string -> option Q.

(** Scoring reads the catalog only: the score rows play no part in it. *)
Lemma walkability_scores_with_scores db rows lat lon max_dist cats :
  walkability_scores haversine_distance (with_scores db rows) lat lon max_dist cats
  = walkability_scores haversine_distance db lat lon max_dist cats.
Proof.
  induction cats as [|c cats IH]; simpl; [reflexivity|].
  rewrite IH. reflexivity.
Qed.

Lemma _evaluate_rule_with_scores db rows rule prop :
  _evaluate_rule haversine_distance parse_float (with_scores db rows) rule prop
  = _evaluate_rule haversine_distance parse_float db rule prop.
Proof.
  unfold _evaluate_rule.
  destruct (String.eqb (rule_type rule) "poi_proximity"); [reflexivity|].
  destruct (String.eqb (rule_type rule) "poi_density"); [reflexivity|].
  destruct (String.eqb (rule_type rule) "property_attr"); [reflexivity|].
  destruct (String.eqb (rule_type rule) "walkability"); [|reflexivity].
  unfold _eval_walkability.
  destruct (as_truthy_float (latitude prop)); [|reflexivity].
  destruct (as_truthy_float (longitude prop)); [|reflexivity].
  destruct (negb _); [reflexivity|].
  destruct (py_iter _); simpl; [|reflexivity].
  rewrite walkability_scores_with_scores. reflexivity.
Qed.

Lemma score_loop_with_scores db rows prop rules st :
  score_loop haversine_distance parse_float (with_scores db rows) prop rules st
  = score_loop haversine_distance parse_float db prop rules st.
Proof.
  revert st. induction rules as [|r rules IH]; intros st; simpl; [reflexivity|].
  unfold score_step. destruct st as [[total weight_sum] bd].
  rewrite _evaluate_rule_with_scores.
  destruct (_evaluate_rule haversine_distance parse_float db r prop); simpl;
    [apply IH|reflexivity].
Qed.

Lemma _score_property_with_scores db rows prop rules :
  _score_property haversine_distance parse_float (with_scores db rows) prop rules
  = _score_property haversine_distance parse_float db prop rules.
Proof.
  unfold _score_property. rewrite score_loop_with_scores. reflexivity.
Qed.

(** Two passes over the same listings, from any two stores and at any two
    clock readings, either both raise the same exception or both complete
    with the same count; under every key the resulting stores then agree up
    to [computed_at], unless neither pass touched the key. *)
Lemma compute_loop_twice dbA dbB profile_id rules props :
  (forall prop,
      _score_property haversine_distance parse_float dbA prop rules
      = _score_property haversine_distance parse_float dbB prop rules) ->
  forall rowsA rowsB cA cB tA tB,
    match compute_loop haversine_distance parse_float dbA
                       profile_id rules tA props rowsA cA,
          compute_loop haversine_distance parse_float dbB
                       profile_id rules tB props rowsB cB with
    | Ok (ra, ca), Ok (rb, cb) =>
        (ca - cA = cb - cB)%Z
        /\ forall j q,
            same_score_at ra rb j q
            \/ (lookup_score ra j q = lookup_score rowsA j q
                /\ lookup_score rb j q = lookup_score rowsB j q)
    | Raise e, Raise e' => e = e'
    | _, _ => False
    end.
Proof.
  intros Hsame.
  induction props as [|prop props IH]; intros rowsA rowsB cA cB tA tB; simpl.
  - split; [lia|]. intros j q. right. auto.
  - rewrite Hsame.
    destruct (_score_property haversine_distance parse_float dbB prop rules)
      as [[s bd]|e]; simpl; [|reflexivity].
    specialize (IH (upsert_score rowsA (id prop) profile_id s bd tA)
                   (upsert_score rowsB (id prop) profile_id s bd tB)
                   (cA + 1)%Z (cB + 1)%Z tA tB).
    destruct (compute_loop _ _ dbA _ _ _ _ _ _) as [[ra ca]|ea];
      destruct (compute_loop _ _ dbB _ _ _ _ _ _) as [[rb cb]|eb]; try exact IH.
    destruct IH as [Hc Hrows]. split; [lia|].
    intros j q. destruct (Hrows j q) as [H|[HA HB]]; [left; exact H|].
    destruct (upsert_score_same_at rowsA rowsB (id prop) profile_id s bd tA tB j q)
      as [H|[HA' HB']].
    + left. unfold same_score_at in *. rewrite HA, HB. exact H.
    + right. split; congruence.
Qed.

(** C7.  For a profile with zero rules, [compute_scores] returns 0 and the
    database it leaves behind is the one it was given: no score row is
    inserted, updated or deleted. *)
Theorem compute_scores_no_rules (db : DB) (now profile_id : Z) (profile : SearchProfile) :
  get_profile db profile_id = Some profile ->
  scoring_rules profile = [] ->
  compute_scores haversine_distance parse_float db now profile_id = (db, Ok 0%Z).
Proof.
  intros Hp Hr. unfold compute_scores. rewrite Hp, Hr. reflexivity.
Qed.

(** C8.  Running [compute_scores] twice in succession on an unchanged
    catalog gives the same outcome both times, and after the second run
    every (listing, profile) key holds a score row with the same total and
    the same breakdown as after the first; only [computed_at] may differ. *)
Theorem compute_scores_idempotent (db : DB) (t1 t2 profile_id : Z) :
  let run1 := compute_scores haversine_distance parse_float db t1 profile_id in
  let run2 := compute_scores haversine_distance parse_float run1.1 t2 profile_id in
  run2.2 = run1.2
  /\ forall property_id profile_id',
      same_score_at (property_scores run1.1) (property_scores run2.1)
                    property_id profile_id'.
Proof.
  unfold compute_scores.
  destruct (get_profile db profile_id) as [profile|] eqn:Hp; simpl.
  2:{ rewrite Hp. simpl. split; [reflexivity|]. intros. apply same_score_at_refl. }
  destruct (scoring_rules profile) as [|r rules] eqn:Hr; simpl.
  { rewrite Hp, Hr. simpl. split; [reflexivity|]. intros. apply same_score_at_refl. }
  destruct (compute_loop haversine_distance parse_float db profile_id (r :: rules) t1
                         (properties db) (property_scores db) 0)
    as [[rows1 c1]|e] eqn:Hrun1; simpl.
  - (* the first run completes and commits [rows1] *)
    change (get_profile (with_scores db rows1) profile_id)
      with (get_profile db profile_id).
    rewrite Hp, Hr.
    change (properties (with_scores db rows1)) with (properties db).
    change (property_scores (with_scores db rows1)) with rows1.
    pose proof (compute_loop_twice (with_scores db rows1) db profile_id (r :: rules)
                  (properties db)
                  (fun prop => _score_property_with_scores db rows1 prop (r :: rules))
                  rows1 (property_scores db) 0%Z 0%Z t2 t1) as H.
    rewrite Hrun1 in H.
    destruct (compute_loop haversine_distance parse_float (with_scores db rows1)
                           profile_id (r :: rules) t2 (properties db) rows1 0)
      as [[rows2 c2]|e2]; [|destruct H].
    destruct H as [Hc Hrows]. simpl. split; [f_equal; lia|].
    intros j q. apply same_score_at_sym.
    destruct (Hrows j q) as [H|[H _]].
    + exact H.
    + unfold same_score_at. rewrite H. apply same_score_at_refl.
  - (* the first run raises and commits nothing: the second run raises too *)
    rewrite Hp, Hr.
    pose proof (compute_loop_twice db db profile_id (r :: rules) (properties db)
                  (fun prop => eq_refl) (property_scores db) (property_scores db)
                  0%Z 0%Z t2 t1) as H.
    rewrite Hrun1 in H.
    destruct (compute_loop haversine_distance parse_float db profile_id (r :: rules) t2
                           (properties db) (property_scores db) 0)
      as [[rows2 c2]|e2]; [destruct H|].
    subst e2. simpl. split; [reflexivity|]. intros. apply same_score_at_refl.
Qed.

(** C9 (as amended).  For a profile id that references no profile, the
    service's [compute_scores] returns 0 and leaves the database as it was,
    and the compute endpoint answers 404 ["Profile not found"] without
    running anything; the endpoint answers 200 only for an existing profile
    of the caller whose run completed, and then reports that run's count. *)
Theorem missing_profile_not_found (db : DB) (now profile_id : Z) :
  get_profile db profile_id = None ->
  compute_scores haversine_distance parse_float db now profile_id = (db, Ok 0%Z)
  /\ (forall jwt_user_id,
        api_compute_scores haversine_distance parse_float db now jwt_user_id profile_id
        = (db, Ok {| body := ErrorBody "Profile not found"; status := 404 |}))
  /\ (forall jwt_user_id profile_id' db' resp,
        api_compute_scores haversine_distance parse_float db now jwt_user_id profile_id'
        = (db', Ok resp) ->
        status resp = 200%Z ->
        exists profile count,
          get_profile db profile_id' = Some profile
          /\ user_id profile = jwt_user_id
          /\ compute_scores haversine_distance parse_float db now profile_id'
             = (db', Ok count)
          /\ body resp = ComputeBody ("Scored " +:+ pretty count +:+ " properties") count).
Proof.
  intros Hnone. split; [|split].
  - unfold compute_scores. rewrite Hnone. reflexivity.
  - intros u. unfold api_compute_scores. rewrite Hnone. reflexivity.
  - intros u pid' db' resp. unfold api_compute_scores.
    destruct (get_profile db pid') as [profile|]; [|intros [= <- <-]; discriminate].
    destruct (user_id profile =? u)%Z eqn:Eu; simpl;
      [|intros [= <- <-]; discriminate].
    apply Z.eqb_eq in Eu.
    destruct (compute_scores haversine_distance parse_float db now pid')
      as [db1 [count|e]]; simpl; [|discriminate].
    intros [= <- <-] _. exists profile, count. auto.
Qed.

End BatchScoring.

(** ** Ranking *)

Lemma ranked_rows_spec db profile_id s p :
  (s, p) ∈ ranked_rows db profile_id
  <-> s ∈ property_scores db /\ score_profile_id s = profile_id
      /\ p ∈ properties db /\ id p = score_property_id s.
Proof.
  unfold ranked_rows. rewrite list_elem_of_In, in_flat_map. split.
  - intros (s' & Hs & Hin).
    destruct (score_profile_id s' =? profile_id)%Z eqn:E; [|destruct Hin].
    apply in_map_iff in Hin. destruct Hin as (p' & [= <- <-] & Hp).
    apply filter_In in Hp. destruct Hp as [Hp Hid].
    apply Z.eqb_eq in E, Hid. rewrite !list_elem_of_In. auto.
  - intros (Hs & E & Hp & Hid). exists s.
    apply list_elem_of_In in Hs. apply list_elem_of_In in Hp.
    split; [exact Hs|]. apply Z.eqb_eq in E. rewrite E.
    apply in_map_iff. exists p. split; [reflexivity|].
    apply filter_In. split; [exact Hp|]. apply Z.eqb_eq. exact Hid.
Qed.

(** C6 (as amended).  [get_ranked_properties] returns the materialised score
    rows of the profile, each joined with its listing, sorted descending by
    [total_score]; rows of equal [total_score] come in whatever order the
    store yields them. *)
Theorem ranked_properties_sorted (db : DB) (profile_id : Z) :
  StronglySorted (fun a b => total_score b.1 <= total_score a.1)
                 (get_ranked_properties db profile_id)
  /\ Permutation (get_ranked_properties db profile_id) (ranked_rows db profile_id)
  /\ forall s p,
      (s, p) ∈ get_ranked_properties db profile_id
      <-> s ∈ property_scores db /\ score_profile_id s = profile_id
          /\ p ∈ properties db /\ id p = score_property_id s.
Proof.
  unfold get_ranked_properties. split; [|split].
  - apply (sort_by_desc_sorted (fun sp : PropertyScore * Property => total_score sp.1)).
  - apply sort_by_desc_perm.
  - intros s p. rewrite sort_by_desc_perm. apply ranked_rows_spec.
Qed.

(** * The scenarios, run *)

Example sort_by_is_stable :
  sort_by (fun x : Z * Q => x.2) [(1%Z, 2); (2%Z, 1); (3%Z, 2); (4%Z, 1)]
  = [(2%Z, 1); (4%Z, 1); (1%Z, 2); (3%Z, 2)].
Proof. reflexivity. Qed.

(** The design document's first scenario: one station 400 m away, one
    proximity rule of weight 1.0, raw 0.6 and total 60.0. *)
Example scenario_single_rule :
  exists score bd,
    _score_property grid_distance no_numeric_strings scenario_db barcelona
                    [proximity_rule 1] = Ok (score, bd)
    /\ score == 60
    /\ exists e, bd !! "rule_1_poi_proximity"%string = Some e
                 /\ raw_value e == 6 # 10 /\ weighted e == 6 # 10.
Proof.
  eexists _, _. split; [vm_compute; reflexivity|].
  split; [vm_compute; reflexivity|].
  eexists. split; [vm_compute; reflexivity|].
  split; vm_compute; reflexivity.
Qed.

(** C1, witness: the design document's second scenario, a proximity rule
    (weight 0.6, raw 0.6) and a density rule (weight 0.4, two of five cafes
    within 500 m, raw 0.4); the total is 52.0. *)
Lemma score_property_aggregate_scenario :
  exists score bd,
    _score_property grid_distance no_numeric_strings scenario_db barcelona
                    [proximity_rule (6 # 10); density_rule (4 # 10)] = Ok (score, bd)
    /\ score == 52 /\ 0 <= score /\ score <= 100.
Proof.
  destruct (score_property_aggregate grid_distance no_numeric_strings
              scenario_db barcelona
              [proximity_rule (6 # 10); density_rule (4 # 10)]
              [600 # 1000; 2 # 5])
    as (score & bd & Hrun & Hscore & _ & _ & Hrange).
  - repeat constructor.
  - exists score, bd. split; [exact Hrun|]. split.
    + rewrite Hscore. vm_compute. reflexivity.
    + apply Hrange.
      * repeat constructor; vm_compute; discriminate.
      * repeat constructor; vm_compute; discriminate.
      * vm_compute. reflexivity.
Defined.

(** C1, counterexample: rule lists that are not empty, with a positive
    weight sum, and no aggregated score: a density rule divides by its
    target count of zero, and a proximity rule finds a category whose only
    POI has no coordinates. *)
Lemma score_property_rule_raises :
  _score_property grid_distance no_numeric_strings scenario_db barcelona
                  [proximity_rule (6 # 10); zero_target_rule]
  = Raise ZeroDivisionError
  /\ 0 < weight_total [proximity_rule (6 # 10); zero_target_rule]
  /\ _score_property grid_distance no_numeric_strings scenario_db barcelona
                     [proximity_rule (6 # 10); density_rule (4 # 10); school_rule]
     = Raise ValueError
  /\ 0 < weight_total [proximity_rule (6 # 10); density_rule (4 # 10); school_rule].
Proof. repeat split; vm_compute; reflexivity. Qed.

(** C2, counterexample: asked for category id 0 around the listing,
    [find_nearby] answers with POIs of categories 1 and 2. *)
Lemma find_nearby_category_zero :
  map (fun it => (poi_id (item_poi it), category_id (item_poi it)))
      (find_nearby grid_distance doorstep_db (41389 # 1000) (2159 # 1000) 1
                   (Some 0%Z))
  = [(11%Z, 1%Z); (23%Z, 2%Z)].
Proof. vm_compute. reflexivity. Qed.

(** C3, witness: the station 400 m away by the distance table, radius 1000:
    raw 0.6. *)
Lemma proximity_raw_value_scenario :
  exists v,
    _eval_poi_proximity grid_distance scenario_db (proximity_rule 1) barcelona = Ok v
    /\ v == 6 # 10.
Proof.
  destruct (proximity_raw_value grid_distance scenario_db (proximity_rule 1) barcelona
              (41389 # 1000) (2159 # 1000) 1000 1%Z)
    as [Hcached _]; try reflexivity; try discriminate.
  destruct (Hcached 400) as (v & Hv & Hraw).
  - split.
    + exists {| dist_property_id := 1; dist_poi_id := 10; distance_m := 400 |},
             metro_station.
      repeat split; try reflexivity; [left|left].
    + intros d' (row & p & Hrow & _ & _ & _ & _ & ->).
      apply list_elem_of_In in Hrow. destruct Hrow as [<-|[]].
      simpl. lra.
  - exists v. split; [exact Hv|]. rewrite Hraw. vm_compute. reflexivity.
Defined.

(** C3, counterexample: a POI of the rule's category stands at the very
    coordinates of the listing, at distance zero, and the radius is 1000;
    the distance table holds a row for the station 400 m away only, and the
    raw value is 0.6, not 1.0. *)
Lemma proximity_ignores_nearer_poi :
  doorstep_metro ∈ pois doorstep_db
  /\ Some (category_id doorstep_metro) = poi_category_id (proximity_rule 1)
  /\ poi_latitude doorstep_metro = latitude barcelona
  /\ poi_longitude doorstep_metro = longitude barcelona
  /\ max_distance_m (proximity_rule 1) = Some 1000
  /\ exists v,
      _eval_poi_proximity grid_distance doorstep_db (proximity_rule 1) barcelona = Ok v
      /\ v == 6 # 10 /\ ~ v == proximity_raw 0 1000.
Proof.
  split; [right; left|]. repeat (split; [reflexivity|]).
  eexists. split; [vm_compute; reflexivity|].
  split; [vm_compute; reflexivity|].
  vm_compute. discriminate.
Qed.

(** C4, failing input: bedrooms 3 against ideal 1 with tolerance -1; the
    rule evaluates to 3.0, outside [0,1]. *)
Lemma negative_tolerance_exceeds_one :
  exists v,
    _evaluate_rule grid_distance no_numeric_strings scenario_db bedrooms_rule barcelona
    = Ok v
    /\ v == 3 /\ 1 < v.
Proof.
  eexists. split; [vm_compute; reflexivity|].
  split; vm_compute; reflexivity.
Qed.

(** C5, failing input: the only POI of category 3 has no coordinates; the
    rule raises [ValueError], and so do the listing's score and the batch. *)
Lemma unlocated_category_raises :
  pois_of_category scenario_db 3 = [unlocated_school]
  /\ _evaluate_rule grid_distance no_numeric_strings scenario_db school_rule barcelona
     = Raise ValueError
  /\ _score_property grid_distance no_numeric_strings scenario_db barcelona
                     [proximity_rule 1; school_rule] = Raise ValueError
  /\ compute_scores grid_distance no_numeric_strings scenario_db 0 9
     = (scenario_db, Raise ValueError).
Proof. repeat split; vm_compute; reflexivity. Qed.

(** C6, counterexample: two listings with the same total 60.0, the score
    row of listing 2 stored in front of that of listing 1: the ranking lists
    id 2 before id 1, and still does after a new run, which finds the same
    totals and updates the rows where they are. *)
Lemma ranking_tie_not_by_id :
  map (fun sp => (id sp.2, score_property_id sp.1)) (get_ranked_properties tie_db 7)
  = [(2%Z, 2%Z); (1%Z, 1%Z)]
  /\ Forall (fun sp => total_score sp.1 == 60) (get_ranked_properties tie_db 7)
  /\ map (fun sp => (id sp.2, score_property_id sp.1))
         (get_ranked_properties
            (compute_scores grid_distance no_numeric_strings tie_db 1 7).1 7)
     = [(2%Z, 2%Z); (1%Z, 1%Z)]
  /\ Forall (fun sp => total_score sp.1 == 60)
         (get_ranked_properties
            (compute_scores grid_distance no_numeric_strings tie_db 1 7).1 7).
Proof.
  split; [vm_compute; reflexivity|].
  split; [vm_compute; repeat constructor|].
  split; [vm_compute; reflexivity|].
  vm_compute. repeat constructor.
Qed.

(** C7, witness: profile 8 has no rules. *)
Lemma compute_scores_no_rules_scenario :
  compute_scores grid_distance no_numeric_strings scenario_db 0 8
  = (scenario_db, Ok 0%Z).
Proof.
  apply (compute_scores_no_rules grid_distance no_numeric_strings scenario_db
           0 8 empty_profile); reflexivity.
Defined.

(** C9, counterexample: on a catalog without listings the service answers a
    run for the missing profile 99 exactly as it answers the completed run
    for the existing profile 7: the count 0 and an unchanged database. *)
Lemma missing_profile_looks_like_empty_run :
  get_profile empty_catalog_db 99 = None
  /\ get_profile empty_catalog_db 7 = Some metro_profile
  /\ compute_scores grid_distance no_numeric_strings empty_catalog_db 0 99
     = (empty_catalog_db, Ok 0%Z)
  /\ compute_scores grid_distance no_numeric_strings empty_catalog_db 0 7
     = (empty_catalog_db, Ok 0%Z).
Proof. repeat split. Qed.

(** C9, witness: profile 99 does not exist. *)
Lemma missing_profile_not_found_scenario :
  compute_scores grid_distance no_numeric_strings scenario_db 0 99
  = (scenario_db, Ok 0%Z)
  /\ api_compute_scores grid_distance no_numeric_strings scenario_db 0 42 99
     = (scenario_db, Ok {| body := ErrorBody "Profile not found"; status := 404 |}).
Proof.
  destruct (missing_profile_not_found grid_distance no_numeric_strings
              scenario_db 0 99 eq_refl) as (Hservice & Hapi & _).
  split; [exact Hservice|apply Hapi].
Defined.

(** C10, witness: a listing on the equator. *)
Lemma zero_coordinate_as_absent_scenario :
  _eval_poi_proximity grid_distance scenario_db (proximity_rule 1) equator_listing
  = Ok 0
  /\ _eval_poi_density grid_distance scenario_db (density_rule 1) equator_listing
     = Ok 0.
Proof.
  assert (Hzero : is_zero (latitude equator_listing)
                  \/ is_zero (longitude equator_listing)).
  { left. exists 0. split; reflexivity. }
  split.
  - exact (proj1 (zero_coordinate_as_absent grid_distance scenario_db
                    (proximity_rule 1) equator_listing Hzero)).
  - exact (proj1 (proj2 (zero_coordinate_as_absent grid_distance scenario_db
                           (density_rule 1) equator_listing Hzero))).
Defined.

(** * Further properties of the rule evaluators *)

Lemma rule_param_spec rule key :
  default ∅ (parameters rule) !! key = rule_param rule key.
Proof.
  unfold rule_param. destruct (parameters rule); simpl; [reflexivity|].
  apply lookup_empty.
Qed.

Lemma rule_radius_spec rule M :
  rule_radius rule M -> float_or (max_distance_m rule) 1000 = M.
Proof. intros ->. reflexivity. Qed.

Section DensityRule.
Variable haversine_distance : Q -> Q -> Q -> Q -> Q.

Lemma density_count_spec db cat lat lon radius :
  length (List.filter (fun d => Qle_bool d radius)
            (live_distances haversine_distance lat lon (pois_of_category db cat)))
  = length (List.filter (counted_poi haversine_distance cat lat lon radius) (pois db)).
Proof.
  unfold pois_of_category, live_distances.
  induction (pois db) as [|p ps IH]; simpl; [reflexivity|].
  unfold counted_poi at 1.
  destruct (category_id p =? cat)%Z; simpl; [|exact IH].
  destruct (poi_latitude p) as [la|]; simpl; [|exact IH].
  destruct (Qeq_bool la 0); simpl.
  { destruct (poi_longitude p); exact IH. }
  destruct (poi_longitude p) as [lo|]; simpl; [|exact IH].
  destruct (Qeq_bool lo 0); simpl; [exact IH|].
  destruct (Qle_bool (haversine_distance lat lon la lo) radius); simpl;
    [f_equal|]; exact IH.
Qed.

(** X1.  A density rule on a listing with non-zero coordinates and a
    non-zero category, with a positive numeric [target_count] [t] (5 when
    the parameter is absent), evaluates to [min(count / t, 1.0)], where
    [count] is the number of POIs of the category with non-zero coordinates
    at most the radius away (the boundary included).  The value is in
    [0,1], it is exactly 1.0 as soon as [count >= t], and 0.0 when nothing
    is in range. *)
Theorem density_raw_value (db : DB) (rule : ScoringRule) (prop : Property)
  (lat lon radius t : Q) (cat : Z) :
  latitude prop = Some lat -> ~ lat == 0 ->
  longitude prop = Some lon -> ~ lon == 0 ->
  poi_category_id rule = Some cat -> cat <> 0%Z ->
  rule_radius rule radius ->
  match rule_param rule "target_count" with
  | Some j => json_number j = Some t
  | None => t = 5
  end ->
  0 < t ->
  exists v,
    _eval_poi_density haversine_distance db rule prop = Ok v
    /\ v == Qmin (inject_Z (Z.of_nat (length
              (List.filter (counted_poi haversine_distance cat lat lon radius)
                           (pois db)))) / t) 1
    /\ 0 <= v /\ v <= 1
    /\ (t <= inject_Z (Z.of_nat (length
              (List.filter (counted_poi haversine_distance cat lat lon radius)
                           (pois db)))) -> v == 1)
    /\ (List.filter (counted_poi haversine_distance cat lat lon radius) (pois db) = []
        -> v == 0).
Proof.
  intros Elat Hlat Elon Hlon Ecat Hcat Hrad Ht Hpos.
  unfold _eval_poi_density.
  rewrite Elat, Elon, Ecat, !as_truthy_float_some, as_truthy_int_some by assumption.
  rewrite rule_param_spec, (rule_radius_spec rule radius Hrad), density_count_spec.
  set (count := length _).
  assert (Hdiv : py_div_count count
                   (default (JNum 5) (rule_param rule "target_count"))
                 = Ok (inject_Z (Z.of_nat count) / t)).
  { unfold py_div_count.
    destruct (rule_param rule "target_count") as [j|]; simpl.
    - rewrite Ht. destruct (Qeq_bool t 0) eqn:E; [|reflexivity].
      apply Qeq_bool_iff in E. lra.
    - subst t. reflexivity. }
  rewrite Hdiv. simpl.
  assert (Hc : 0 <= inject_Z (Z.of_nat count)).
  { change 0 with (inject_Z 0). rewrite <- Zle_Qle. lia. }
  assert (Hq : 0 <= inject_Z (Z.of_nat count) / t)
    by (apply Qle_shift_div_l; lra).
  eexists. split; [reflexivity|].
  unfold py_min.
  destruct (Qltb 1 (inject_Z (Z.of_nat count) / t)) eqn:E.
  - apply Qltb_lt in E. split; [symmetry; apply Q.min_r; lra|].
    split; [lra|]. split; [lra|]. split; [reflexivity|].
    intros Hnil. exfalso. unfold count in E. rewrite Hnil in E. simpl in E.
    assert (H0 : inject_Z 0 / t == 0) by (unfold Qdiv; apply Qmult_0_l).
    change (inject_Z (Z.of_nat 0)) with (inject_Z 0) in E. lra.
  - apply Qltb_ge in E. split; [symmetry; apply Q.min_l; exact E|].
    split; [exact Hq|]. split; [exact E|]. split.
    + intros Hge. apply Qle_antisym; [exact E|].
      apply Qle_shift_div_l; lra.
    + intros Hnil. unfold count. rewrite Hnil. simpl.
      unfold Qdiv. apply Qmult_0_l.
Qed.

(** X2.  On a listing with non-zero coordinates and a non-zero category,
    a density rule whose [target_count] parameter is present raises
    [ZeroDivisionError] when it is zero (or [false]) and [TypeError] when it
    is not a number (null, a string, a list, an object). *)
Theorem density_bad_target_count (db : DB) (rule : ScoringRule) (prop : Property)
  (lat lon : Q) (cat : Z) (j : json) :
  latitude prop = Some lat -> ~ lat == 0 ->
  longitude prop = Some lon -> ~ lon == 0 ->
  poi_category_id rule = Some cat -> cat <> 0%Z ->
  rule_param rule "target_count" = Some j ->
  (forall t, json_number j = Some t -> t == 0 ->
     _eval_poi_density haversine_distance db rule prop = Raise ZeroDivisionError)
  /\ (json_number j = None ->
      _eval_poi_density haversine_distance db rule prop = Raise TypeError).
Proof.
  intros Elat Hlat Elon Hlon Ecat Hcat Hj.
  unfold _eval_poi_density.
  rewrite Elat, Elon, Ecat, !as_truthy_float_some, as_truthy_int_some by assumption.
  rewrite rule_param_spec, Hj. simpl. unfold py_div_count. split.
  - intros t Ht Hz. rewrite Ht. apply Qeq_bool_iff in Hz. rewrite Hz. reflexivity.
  - intros Hn. rewrite Hn. reflexivity.
Qed.

End DensityRule.

Section AttributeRule.
Variable parse_float : string -> option Q.

Lemma getattr_empty_name prop : getattr prop "" = None.
Proof. reflexivity. Qed.

Lemma py_float_in_range q :
  in_float_range q -> py_float parse_float (VNum q) = Ok q.
Proof.
  unfold in_float_range, py_float. intros H.
  destruct (Qle_bool float_limit (Qabs q)) eqn:E; [|reflexivity].
  apply Qle_bool_iff in E. exfalso. apply (Qlt_not_le _ _ H E).
Qed.

Lemma py_float_beyond q :
  float_limit <= Qabs q -> py_float parse_float (VNum q) = Raise OverflowError.
Proof.
  unfold py_float. intros H. apply Qle_bool_iff in H. rewrite H. reflexivity.
Qed.

Lemma in_float_range_0 : in_float_range 0.
Proof. reflexivity. Qed.

Lemma floats_or_raise_numbers a i t :
  in_float_range a -> in_float_range i -> in_float_range t ->
  floats_or_raise parse_float (VNum a) (JNum i) (JNum t) = Ok (a, i, t).
Proof.
  intros Ha Hi Ht. unfold floats_or_raise. cbn [json_pyval].
  rewrite !py_float_in_range by assumption. reflexivity.
Qed.

(** X3.  An attribute rule that names a numeric attribute with value [a]
    and a numeric [ideal] [i], both numbers that [float()] converts: with
    [tolerance] absent or zero the value is 1.0 on an exact match and 0.0
    otherwise; with a positive [tolerance] [t] that [float()] converts it is
    [max(0, 1 - |a - i| / t)], which lies in [0,1], is 1.0 on an exact match
    and 0.0 once the difference reaches the tolerance. *)
Theorem property_attr_raw_value (rule : ScoringRule) (prop : Property)
  (name : string) (a i : Q) :
  rule_param rule "attribute" = Some (JStr name) ->
  getattr prop name = Some (VNum a) ->
  rule_param rule "ideal" = Some (JNum i) ->
  in_float_range a -> in_float_range i ->
  ((rule_param rule "tolerance" = None
    \/ exists t, rule_param rule "tolerance" = Some (JNum t) /\ t == 0) ->
   _eval_property_attr parse_float rule prop = Ok (if Qeq_bool a i then 1 else 0))
  /\ (forall t, rule_param rule "tolerance" = Some (JNum t) -> 0 < t ->
      in_float_range t ->
      exists v,
        _eval_property_attr parse_float rule prop = Ok v
        /\ v == Qmax 0 (1 - Qabs (a - i) / t)
        /\ 0 <= v /\ v <= 1
        /\ (a == i -> v == 1)
        /\ (t <= Qabs (a - i) -> v == 0)).
Proof.
  intros Hname Hget Hideal Ha Hi.
  assert (Htruthy : json_truthy (JStr name) = true).
  { destruct name; [rewrite getattr_empty_name in Hget; discriminate|reflexivity]. }
  unfold _eval_property_attr.
  rewrite !rule_param_spec, Hname, Hideal, Htruthy, Hget.
  cbn [negb].
  split.
  - intros [Htol|(t & Htol & Hz)]; rewrite Htol; cbn [from_option Datatypes.id].
    + rewrite floats_or_raise_numbers by auto using in_float_range_0.
      reflexivity.
    + assert (Ht : in_float_range t).
      { unfold in_float_range. rewrite Hz. reflexivity. }
      rewrite floats_or_raise_numbers by assumption.
      apply Qeq_bool_iff in Hz. rewrite Hz. reflexivity.
  - intros t Htol Hpos Ht. rewrite Htol. cbn [from_option Datatypes.id].
    rewrite floats_or_raise_numbers by assumption.
    destruct (Qeq_bool t 0) eqn:Ez; [apply Qeq_bool_iff in Ez; lra|].
    pose proof (Qabs_nonneg (a - i)) as Habs.
    assert (Hq : 0 <= Qabs (a - i) / t) by (apply Qle_shift_div_l; lra).
    assert (Hmatch : a == i -> Qabs (a - i) / t == 0).
    { intros Heq. assert (H0 : a - i == 0) by lra.
      rewrite H0. unfold Qdiv. apply Qmult_0_l. }
    assert (Hfar : t <= Qabs (a - i) -> 1 <= Qabs (a - i) / t)
      by (intros Hge; apply Qle_shift_div_l; lra).
    eexists. split; [reflexivity|].
    split; [apply py_max_spec|].
    unfold py_max.
    set (q := Qabs (a - i) / t) in *.
    destruct (Qltb 0 (1 - q)) eqn:E.
    + apply Qltb_lt in E. split; [lra|]. split; [lra|]. split.
      * intros Heq. specialize (Hmatch Heq). lra.
      * intros Hge. specialize (Hfar Hge). lra.
    + apply Qltb_ge in E. split; [lra|]. split; [lra|]. split; [|reflexivity].
      intros Heq. specialize (Hmatch Heq). lra.
Qed.

(** X4.  An attribute rule scores 0.0, without raising, when the
    [attribute] or the [ideal] parameter is missing, when [ideal] is null,
    when the listing has no such attribute or its value is NULL, and when
    the attribute holds text that [float()] rejects. *)
Theorem property_attr_degrades_to_zero (rule : ScoringRule) (prop : Property) :
  rule_param rule "attribute" = None
  \/ rule_param rule "ideal" = None
  \/ rule_param rule "ideal" = Some JNull
  \/ (exists name, rule_param rule "attribute" = Some (JStr name)
                   /\ getattr prop name = None)
  \/ (exists name s, rule_param rule "attribute" = Some (JStr name)
                     /\ getattr prop name = Some (VStr s)
                     /\ parse_float s = None) ->
  _eval_property_attr parse_float rule prop = Ok 0.
Proof.
  unfold _eval_property_attr. rewrite !rule_param_spec.
  intros [H|[H|[H|[(name & Hn & Hg)|(name & s & Hn & Hg & Hp)]]]].
  - rewrite H. reflexivity.
  - rewrite H. destruct (rule_param rule "attribute"); reflexivity.
  - rewrite H. destruct (rule_param rule "attribute") as [n|]; [|reflexivity].
    destruct (negb (json_truthy n)); reflexivity.
  - rewrite Hn. destruct (rule_param rule "ideal") as [ideal|]; [|reflexivity].
    destruct (negb (json_truthy (JStr name))); [reflexivity|].
    rewrite Hg. destruct ideal; reflexivity.
  - rewrite Hn. destruct (rule_param rule "ideal") as [ideal|]; [|reflexivity].
    destruct (negb (json_truthy (JStr name))); [reflexivity|].
    rewrite Hg. unfold floats_or_raise. simpl. rewrite Hp. simpl.
    destruct ideal; reflexivity.
Qed.

Lemma in_float_range_1 : in_float_range 1.
Proof. reflexivity. Qed.

(** [float()] raises [ValueError], [TypeError] or, on a number beyond the
    range, [OverflowError]; nothing else. *)
Lemma py_float_outcome v :
  (exists q, py_float parse_float v = Ok q)
  \/ py_float parse_float v = Raise ValueError
  \/ py_float parse_float v = Raise TypeError
  \/ (py_float parse_float v = Raise OverflowError
      /\ exists q, v = VNum q /\ float_limit <= Qabs q).
Proof.
  destruct v as [q|s|]; cbn [py_float].
  - destruct (Qle_bool float_limit (Qabs q)) eqn:E; [|eauto].
    apply Qle_bool_iff in E. right. right. right. eauto.
  - destruct (parse_float s); eauto.
  - eauto.
Qed.

Lemma floats_or_raise_outcome actual ideal tolerance :
  (exists r, floats_or_raise parse_float actual ideal tolerance = Ok r)
  \/ floats_or_raise parse_float actual ideal tolerance = Raise ValueError
  \/ floats_or_raise parse_float actual ideal tolerance = Raise TypeError
  \/ (floats_or_raise parse_float actual ideal tolerance = Raise OverflowError
      /\ exists q,
           (actual = VNum q \/ json_pyval ideal = VNum q
            \/ json_pyval tolerance = VNum q)
           /\ float_limit <= Qabs q).
Proof.
  unfold floats_or_raise.
  destruct (py_float_outcome actual) as [[a ->]|[->|[->|[-> (q & Hq & Hlim)]]]];
    cbn [bind]; [|eauto|eauto|right; right; right; eauto 6].
  destruct (py_float_outcome (json_pyval ideal))
    as [[i ->]|[->|[->|[-> (q & Hq & Hlim)]]]];
    cbn [bind]; [|eauto|eauto|right; right; right; eauto 6].
  destruct (py_float_outcome (json_pyval tolerance))
    as [[t ->]|[->|[->|[-> (q & Hq & Hlim)]]]];
    cbn [bind]; [eauto|eauto|eauto|right; right; right; eauto 7].
Qed.

Lemma json_pyval_number j q :
  json_pyval j = VNum q ->
  j = JNum q \/ (exists b, j = JBool b /\ in_float_range q).
Proof.
  destruct j as [|b|q'|s|l|m]; cbn [json_pyval]; try discriminate.
  - intros [= <-]. right. exists b. split; [reflexivity|].
    destruct b; [apply in_float_range_1|apply in_float_range_0].
  - intros [= <-]. left. reflexivity.
Qed.

(** With a string for [attribute] the rule returns a value, or the [try]
    block raises the one error its handler lets through. *)
Lemma property_attr_string_outcome rule prop name :
  rule_param rule "attribute" = Some (JStr name) ->
  (exists v, _eval_property_attr parse_float rule prop = Ok v)
  \/ (_eval_property_attr parse_float rule prop = Raise OverflowError
      /\ exists actual ideal,
           getattr prop name = Some actual
           /\ rule_param rule "ideal" = Some ideal
           /\ floats_or_raise parse_float actual ideal
                (default (JNum 0) (rule_param rule "tolerance"))
              = Raise OverflowError).
Proof.
  intros Hattr. unfold _eval_property_attr. rewrite !rule_param_spec, Hattr.
  destruct (rule_param rule "ideal") as [ideal|]; [|eauto].
  destruct (negb (json_truthy (JStr name))); [eauto|].
  destruct (getattr prop name) as [actual|]; [|destruct ideal; eauto].
  destruct (floats_or_raise_outcome actual ideal
              (default (JNum 0) (rule_param rule "tolerance")))
    as [[[[x y] z] Hr]|[Hr|[Hr|[Hr _]]]]; rewrite Hr.
  - destruct ideal; eauto; destruct (Qeq_bool z 0); eauto.
  - destruct ideal; eauto.
  - destruct ideal; eauto.
  - destruct ideal; eauto 8.
Qed.

(** X5.  With a string for its [attribute] parameter an attribute rule
    returns a value or raises [OverflowError], nothing else.  It returns a
    value when the listing's attribute, [ideal] and [tolerance], where they
    are numbers, are numbers that [float()] converts; it raises
    [OverflowError] when the attribute is such a number and [ideal] is an
    integer beyond the float range.  When [attribute] is a truthy value that
    is not a string (a non-zero number, [true], a non-empty list or object)
    and [ideal] is present and not null, the rule raises [TypeError]. *)
Theorem property_attr_attribute_name_type (rule : ScoringRule) (prop : Property)
  (attr : json) :
  rule_param rule "attribute" = Some attr ->
  (forall name, attr = JStr name ->
     ((exists v, _eval_property_attr parse_float rule prop = Ok v)
      \/ _eval_property_attr parse_float rule prop = Raise OverflowError)
     /\ ((forall a, getattr prop name = Some (VNum a) -> in_float_range a) ->
         (forall i, rule_param rule "ideal" = Some (JNum i) -> in_float_range i) ->
         (forall t, rule_param rule "tolerance" = Some (JNum t) -> in_float_range t) ->
         exists v, _eval_property_attr parse_float rule prop = Ok v)
     /\ (forall a i,
           getattr prop name = Some (VNum a) -> in_float_range a ->
           rule_param rule "ideal" = Some (JNum i) -> float_limit <= Qabs i ->
           _eval_property_attr parse_float rule prop = Raise OverflowError))
  /\ ((forall name, attr <> JStr name) -> json_truthy attr = true ->
      forall ideal, rule_param rule "ideal" = Some ideal -> ideal <> JNull ->
      _eval_property_attr parse_float rule prop = Raise TypeError).
Proof.
  intros Hattr. split.
  - intros name ->.
    pose proof (property_attr_string_outcome rule prop name Hattr) as Hout.
    split; [|split].
    + destruct Hout as [Hv|[Hr _]]; auto.
    + intros Ha Hi Ht.
      destruct Hout as [Hv|(_ & actual & ideal & Hget & Hideal & Hr)]; [exact Hv|].
      exfalso.
      destruct (floats_or_raise_outcome actual ideal
                  (default (JNum 0) (rule_param rule "tolerance")))
        as [[r Hr']|[Hr'|[Hr'|(_ & q & Hq & Hlim)]]]; try congruence.
      assert (Hrange : in_float_range q); [|exact (Qlt_not_le _ _ Hrange Hlim)].
      destruct Hq as [->|[Hq|Hq]].
      * apply Ha, Hget.
      * apply json_pyval_number in Hq as [->|(b & _ & Hb)]; [|exact Hb].
        apply Hi, Hideal.
      * apply json_pyval_number in Hq as [Hq|(b & _ & Hb)]; [|exact Hb].
        destruct (rule_param rule "tolerance") as [t|] eqn:Etol;
          cbn [from_option Datatypes.id] in Hq.
        -- subst t. apply Ht. reflexivity.
        -- injection Hq as <-. apply in_float_range_0.
    + intros a i Hget Ha Hideal Hlim.
      assert (Htruthy : json_truthy (JStr name) = true).
      { destruct name; [rewrite getattr_empty_name in Hget; discriminate|reflexivity]. }
      unfold _eval_property_attr.
      rewrite !rule_param_spec, Hattr, Hideal, Htruthy, Hget. cbn [negb].
      unfold floats_or_raise. cbn [json_pyval].
      rewrite (py_float_in_range a Ha), (py_float_beyond i Hlim). reflexivity.
  - intros Hns Htruthy ideal Hideal Hnull.
    unfold _eval_property_attr. rewrite !rule_param_spec, Hattr.
    rewrite Hideal, Htruthy. simpl.
    destruct ideal; try congruence;
      destruct attr; try reflexivity; exfalso; eapply Hns; reflexivity.
Qed.

End AttributeRule.

Section DistanceRules.
Variable haversine_distance : Q -> Q -> Q -> Q -> Q.
Hypothesis haversine_nonneg :
  forall lat1 lon1 lat2 lon2, 0 <= haversine_distance lat1 lon1 lat2 lon2.

Lemma live_distances_nonneg lat lon ps d :
  d ∈ live_distances haversine_distance lat lon ps -> 0 <= d.
Proof using haversine_nonneg.
  unfold live_distances. rewrite list_elem_of_omap.
  intros (p & _ & Hf).
  destruct (as_truthy_float (poi_latitude p)); [|discriminate].
  destruct (as_truthy_float (poi_longitude p)); [|discriminate].
  inversion Hf. apply haversine_nonneg.
Qed.

Lemma py_min_list_member l d : py_min_list l = Ok d -> d ∈ l.
Proof.
  destruct l as [|x t]; [discriminate|]. intros [= <-].
  apply list_elem_of_In. apply fold_py_min_least.
Qed.

Lemma decay_range d M : 0 <= d -> ~ M == 0 -> 0 <= decay d M /\ decay d M <= 1.
Proof.
  intros Hd HM. unfold decay.
  destruct (Qltb M d) eqn:E; [split; lra|]. apply Qltb_ge in E.
  assert (HMpos : 0 < M).
  { destruct (Qlt_le_dec 0 M) as [H|H]; [exact H|].
    exfalso. apply HM. lra. }
  assert (H0 : 0 <= d / M) by (apply Qle_shift_div_l; lra).
  assert (H1 : d / M <= 1) by (apply Qle_shift_div_r; lra).
  set (q := d / M) in *. unfold py_max.
  destruct (Qltb 0 (1 - q)) eqn:E'; [apply Qltb_lt in E'|]; split; lra.
Qed.

(** X6.  The proximity score decays with distance: for a positive radius
    [M], a POI that is no farther never scores lower, and the score is
    [0.0] from the radius outwards. *)
Theorem decay_antitone (d1 d2 M : Q) :
  0 < M -> 0 <= d1 -> d1 <= d2 ->
  decay d2 M <= decay d1 M /\ (M <= d2 -> decay d2 M == 0).
Proof.
  intros HM H0 Hle.
  assert (Hdiv : d1 / M <= d2 / M).
  { unfold Qdiv. apply Qmult_le_compat_r; [exact Hle|].
    apply Qlt_le_weak, Qinv_lt_0_compat, HM. }
  assert (Hfar : M <= d2 -> 1 <= d2 / M)
    by (intros H; apply Qle_shift_div_l; lra).
  unfold decay, py_max.
  set (q1 := d1 / M) in *. set (q2 := d2 / M) in *.
  destruct (Qltb M d2) eqn:E2; destruct (Qltb M d1) eqn:E1;
    try apply Qltb_lt in E2; try apply Qltb_ge in E2;
    try apply Qltb_lt in E1; try apply Qltb_ge in E1;
    destruct (Qltb 0 (1 - q1)) eqn:F1; destruct (Qltb 0 (1 - q2)) eqn:F2;
    try apply Qltb_lt in F1; try apply Qltb_ge in F1;
    try apply Qltb_lt in F2; try apply Qltb_ge in F2;
    (split; [lra|intros H; try specialize (Hfar H); lra]).
Qed.

(** X7.  With a distance function that is never negative and a distance
    table that holds no negative distance, a proximity rule that returns a
    value returns one in [0,1], whatever the radius. *)
Theorem proximity_in_unit_range (db : DB) (rule : ScoringRule) (prop : Property)
  (v : Q) :
  (forall row, row ∈ property_poi_distances db -> 0 <= distance_m row) ->
  _eval_poi_proximity haversine_distance db rule prop = Ok v ->
  0 <= v /\ v <= 1.
Proof using haversine_nonneg.
  intros Hrows. unfold _eval_poi_proximity.
  destruct (as_truthy_float (latitude prop)) as [lat|]; [|intros [= <-]; split; lra].
  destruct (as_truthy_float (longitude prop)) as [lon|]; [|intros [= <-]; split; lra].
  destruct (as_truthy_int (poi_category_id rule)) as [cat|]; [|intros [= <-]; split; lra].
  assert (HM : ~ float_or (max_distance_m rule) 1000 == 0).
  { apply float_or_nonzero. intros H. discriminate H. }
  unfold nearest_precomputed.
  destruct (precomputed_distances db (id prop) cat) as [|x t] eqn:Ecache.
  - destruct (pois_of_category db cat) as [|p ps]; [intros [= <-]; split; lra|].
    destruct (py_min_list _) as [d|e] eqn:Emin; simpl; [|discriminate].
    intros [= <-]. apply decay_range; [|exact HM].
    apply py_min_list_member in Emin.
    eapply live_distances_nonneg. exact Emin.
  - intros [= <-]. apply decay_range; [|exact HM].
    assert (Hin : fold_left py_min t x ∈ precomputed_distances db (id prop) cat).
    { rewrite Ecache. apply list_elem_of_In. apply fold_py_min_least. }
    apply precomputed_distances_spec in Hin.
    destruct Hin as (row & p & Hrow & _ & _ & _ & _ & ->). apply Hrows, Hrow.
Qed.

Lemma Qsum_from l a : fold_left Qplus l a == a + Qsum l.
Proof.
  unfold Qsum. revert a. induction l as [|x l IH]; intros a; simpl; [lra|].
  rewrite (IH (a + x)), (IH (0 + x)). lra.
Qed.

Lemma Qsum_cons x l : Qsum (x :: l) == x + Qsum l.
Proof. unfold Qsum at 1. simpl. rewrite Qsum_from. lra. Qed.

Lemma Qsum_range l :
  Forall (fun s => 0 <= s /\ s <= 1) l ->
  0 <= Qsum l /\ Qsum l <= inject_Z (Z.of_nat (length l)).
Proof.
  induction 1 as [|x l [H0 H1] _ [IH0 IH1]].
  - unfold Qsum. simpl. split; apply Qle_refl.
  - rewrite Qsum_cons. cbn [length].
    rewrite Nat2Z.inj_succ, <- Z.add_1_r, inject_Z_plus.
    change (inject_Z 1) with 1. split; lra.
Qed.

Lemma walkability_scores_range db lat lon M cats ss :
  0 < M ->
  walkability_scores haversine_distance db lat lon M cats = Ok ss ->
  Forall (fun s => 0 <= s /\ s <= 1) ss.
Proof using haversine_nonneg.
  intros HM. revert ss. induction cats as [|c cats IH]; intros ss; simpl.
  - intros [= <-]. constructor.
  - destruct (pois_of_category_json db c) as [|p ps].
    + simpl. destruct (walkability_scores _ _ _ _ _ cats) as [ss'|]; simpl;
        [|discriminate].
      intros [= <-]. constructor; [split; lra|]. apply IH. reflexivity.
    + destruct (py_min_list _) as [d|] eqn:Emin; simpl; [|discriminate].
      destruct (walkability_scores _ _ _ _ _ cats) as [ss'|]; simpl;
        [|discriminate].
      intros [= <-]. constructor; [|apply IH; reflexivity].
      apply py_min_list_member, live_distances_nonneg in Emin.
      assert (H0 : 0 <= d / M) by (apply Qle_shift_div_l; lra).
      set (q := d / M) in *. unfold py_max.
      destruct (Qltb 0 (1 - q)) eqn:E; [apply Qltb_lt in E|]; split; lra.
Qed.

(** X8.  With a distance function that is never negative and a radius
    that is absent or not negative, a walkability rule whose [categories],
    when present, is a list of numeric ids and that returns a value returns
    one in [0,1]. *)
Theorem walkability_in_unit_range (db : DB) (rule : ScoringRule) (prop : Property)
  (v : Q) :
  (forall m, max_distance_m rule = Some m -> 0 <= m) ->
  (forall j, rule_param rule "categories" = Some j ->
     exists cs, j = JList cs /\ Forall numeric_id cs) ->
  _eval_walkability haversine_distance db rule prop = Ok v ->
  0 <= v /\ v <= 1.
Proof using haversine_nonneg.
  intros Hm _. unfold _eval_walkability.
  destruct (as_truthy_float (latitude prop)) as [lat|]; [|intros [= <-]; split; lra].
  destruct (as_truthy_float (longitude prop)) as [lon|]; [|intros [= <-]; split; lra].
  destruct (negb _); [intros [= <-]; split; lra|].
  destruct (py_iter _) as [cats|]; simpl; [|discriminate].
  assert (HM : 0 < float_or (max_distance_m rule) 1000).
  { unfold float_or. destruct (max_distance_m rule) as [m|]; [|reflexivity].
    destruct (Qeq_bool m 0) eqn:E; [reflexivity|].
    apply Qeq_bool_false_neq in E. specialize (Hm m eq_refl).
    destruct (Qlt_le_dec 0 m) as [H|H]; [exact H|]. exfalso. apply E. lra. }
  destruct (walkability_scores _ _ _ _ _ cats) as [ss|] eqn:Ess; cbn [bind];
    [|discriminate].
  apply walkability_scores_range in Ess; [|exact HM].
  destruct ss as [|s ss]; [intros [= <-]; split; lra|].
  intros [= <-].
  destruct (Qsum_range _ Ess) as [H0 H1].
  set (n := inject_Z (Z.of_nat (length (s :: ss)))) in *.
  assert (Hn : 0 < n).
  { unfold n. change 0 with (inject_Z 0). rewrite <- Zlt_Qlt. simpl. lia. }
  split; [apply Qle_shift_div_l|apply Qle_shift_div_r];
    change (inject_Z (Z.of_nat (S (length ss)))) with n; lra.
Qed.

End DistanceRules.

Section WalkabilityRule.
Variable haversine_distance : Q -> Q -> Q -> Q -> Q.

Lemma walkability_scores_length db lat lon M cats ss :
  walkability_scores haversine_distance db lat lon M cats = Ok ss ->
  length ss = length cats.
Proof.
  revert ss. induction cats as [|c cats IH]; intros ss; simpl.
  - intros [= <-]. reflexivity.
  - destruct (match pois_of_category_json db c with
              | [] => Ok 0
              | _ :: _ => _
              end) as [s|]; cbn [bind]; [|discriminate].
    destruct (walkability_scores _ _ _ _ _ cats) as [ss'|]; cbn [bind];
      [|discriminate].
    intros [= <-]. simpl. f_equal. apply IH. reflexivity.
Qed.

(** X9.  Adding to a walkability rule over numeric category ids a
    category that has no POI at all never raises the score: the category
    enters the average with 0.0, so the score of [n] categories is scaled
    by [n / (n + 1)]. *)
Theorem walkability_empty_category_lowers (db : DB) (r r' : ScoringRule)
  (prop : Property) (c : json) (cs : list json) (v : Q) :
  max_distance_m r' = max_distance_m r ->
  rule_param r "categories" = Some (JList cs) ->
  rule_param r' "categories" = Some (JList (c :: cs)) ->
  Forall numeric_id (c :: cs) ->
  pois_of_category_json db c = [] ->
  _eval_walkability haversine_distance db r prop = Ok v ->
  exists v',
    _eval_walkability haversine_distance db r' prop = Ok v'
    /\ v' * inject_Z (Z.of_nat (S (length cs))) == v * inject_Z (Z.of_nat (length cs))
    /\ (0 <= v -> v' <= v).
Proof.
  intros Hmax Hcs Hcs' _ Hnone. unfold _eval_walkability.
  rewrite !rule_param_spec, Hcs, Hcs', Hmax.
  destruct (as_truthy_float (latitude prop)) as [lat|].
  2:{ intros [= <-]. exists 0. repeat split; lra. }
  destruct (as_truthy_float (longitude prop)) as [lon|].
  2:{ intros [= <-]. exists 0. repeat split; lra. }
  cbn [from_option Datatypes.id json_truthy negb py_iter bind walkability_scores].
  rewrite Hnone. cbn [bind].
  set (M := float_or (max_distance_m r) 1000).
  destruct cs as [|c0 cs].
  - cbn [negb]. intros [= <-]. cbn [walkability_scores bind].
    eexists. split; [reflexivity|]. split; [vm_compute; reflexivity|].
    intros _. vm_compute. discriminate.
  - cbn [negb].
    destruct (walkability_scores haversine_distance db lat lon M (c0 :: cs))
      as [ss|] eqn:Ess; cbn [bind]; [|discriminate].
    pose proof (walkability_scores_length _ _ _ _ _ _ Ess) as Hlen.
    destruct ss as [|s ss]; [discriminate|].
    intros [= <-]. eexists. split; [reflexivity|].
    rewrite <- Hlen.
    set (n := inject_Z (Z.of_nat (length (s :: ss)))).
    assert (Hn : 0 < n).
    { unfold n. change 0 with (inject_Z 0). rewrite <- Zlt_Qlt. simpl. lia. }
    assert (Hn1 : inject_Z (Z.of_nat (S (length (s :: ss)))) == n + 1).
    { unfold n. rewrite Nat2Z.inj_succ, <- Z.add_1_r, inject_Z_plus. reflexivity. }
    change (length (0 :: s :: ss)) with (S (length (s :: ss))).
    rewrite Hn1.
    assert (Hsum : Qsum (0 :: s :: ss) == Qsum (s :: ss))
      by (rewrite (Qsum_cons 0); lra).
    rewrite Hsum. set (S0 := Qsum (s :: ss)).
    assert (E1 : S0 / (n + 1) * (n + 1) == S0) by (field; lra).
    assert (E2 : S0 / n * n == S0) by (field; lra).
    change (inject_Z (Z.of_nat (S (length ss)))) with n.
    split; [lra|].
    intros Hv.
    assert (HS : 0 <= S0).
    { assert (H : 0 <= S0 / n * n) by (apply Qmult_le_0_compat; lra). lra. }
    apply Qle_shift_div_r; [lra|].
    assert (H : S0 / n * (n + 1) == S0 + S0 / n) by (field; lra).
    rewrite H. lra.
Qed.

Lemma walkability_scores_return db lat lon M cs :
  Forall (fun c => pois_of_category_json db c = []
                   \/ live_distances haversine_distance lat lon
                        (pois_of_category_json db c) <> []) cs ->
  exists ss, walkability_scores haversine_distance db lat lon M cs = Ok ss.
Proof.
  induction 1 as [|c cs' Hc _ [ss Hss]]; [eexists; reflexivity|].
  cbn [walkability_scores]. rewrite Hss.
  destruct Hc as [Hc|Hc].
  - rewrite Hc. eexists. reflexivity.
  - destruct (pois_of_category_json db c) as [|p ps] eqn:Eps;
      [eexists; reflexivity|].
    destruct (py_min_list_least _ Hc) as (d & -> & _).
    eexists. reflexivity.
Qed.

(** X10.  A walkability rule returns a value whenever its list holds
    numeric category ids each of which either has no POI or has at least one
    POI with non-zero coordinates; it raises [ValueError] when the first
    category of the list has POIs but none with non-zero coordinates, and
    [TypeError] when [categories] is a non-zero number or [true]. *)
Theorem walkability_returns_or_raises (db : DB) (rule : ScoringRule)
  (prop : Property) (lat lon : Q) :
  latitude prop = Some lat -> ~ lat == 0 ->
  longitude prop = Some lon -> ~ lon == 0 ->
  (forall cs,
      rule_param rule "categories" = Some (JList cs) ->
      (Forall numeric_id cs ->
       Forall (fun c => pois_of_category_json db c = []
                        \/ live_distances haversine_distance lat lon
                             (pois_of_category_json db c) <> []) cs ->
       exists v, _eval_walkability haversine_distance db rule prop = Ok v)
      /\ (forall c rest,
            cs = c :: rest ->
            pois_of_category_json db c <> [] ->
            live_distances haversine_distance lat lon (pois_of_category_json db c) = [] ->
            _eval_walkability haversine_distance db rule prop = Raise ValueError))
  /\ (forall j, rule_param rule "categories" = Some j ->
        json_truthy j = true ->
        (exists q, j = JNum q) \/ j = JBool true ->
        _eval_walkability haversine_distance db rule prop = Raise TypeError).
Proof.
  intros Elat Hlat Elon Hlon. unfold _eval_walkability.
  rewrite Elat, Elon, !as_truthy_float_some, !rule_param_spec by assumption.
  split.
  - intros cs Hcs. rewrite Hcs. cbn [from_option Datatypes.id].
    set (M := float_or (max_distance_m rule) 1000). split.
    + intros _ Hall.
      destruct (walkability_scores_return db lat lon M cs Hall) as [ss Hss].
      destruct (negb (json_truthy (JList cs))); [eauto|].
      cbn [py_iter bind]. rewrite Hss. cbn [bind]. destruct ss; eauto.
    + intros c rest -> Hps Hlive.
      cbn [json_truthy negb py_iter bind walkability_scores].
      destruct (pois_of_category_json db c) as [|p ps]; [congruence|].
      rewrite Hlive. reflexivity.
  - intros j Hj Htruthy Hkind. rewrite Hj. cbn [from_option Datatypes.id].
    rewrite Htruthy. cbn [negb].
    destruct Hkind as [[q ->]| ->]; reflexivity.
Qed.

End WalkabilityRule.

(** * Further properties of the batch and the store *)

Lemma lookup_score_Some rows j q row :
  lookup_score rows j q = Some row ->
  row ∈ rows /\ score_property_id row = j /\ score_profile_id row = q.
Proof.
  unfold lookup_score. intros H. apply find_some in H. destruct H as [Hin Hk].
  unfold score_key_eqb in Hk. apply andb_true_iff in Hk. destruct Hk as [H1 H2].
  apply Z.eqb_eq in H1, H2. split; [apply list_elem_of_In, Hin|auto].
Qed.

Lemma lookup_score_None rows j q :
  lookup_score rows j q = None <-> (j, q) ∉ score_key <$> rows.
Proof.
  unfold lookup_score. split.
  - intros H Hin. apply list_elem_of_fmap in Hin. destruct Hin as (row & Hk & Hin).
    apply list_elem_of_In in Hin.
    pose proof (find_none _ _ H row Hin) as Hf.
    unfold score_key in Hk. inversion Hk; subst.
    unfold score_key_eqb in Hf. rewrite !Z.eqb_refl in Hf. discriminate.
  - intros Hnot. destruct (find _ rows) as [row|] eqn:E; [|reflexivity].
    exfalso. apply Hnot. apply lookup_score_Some in E.
    destruct E as (Hin & <- & <-). apply list_elem_of_fmap. exists row. auto.
Qed.

Lemma upsert_score_keys rows i p s bd now :
  score_key <$> upsert_score rows i p s bd now
  = if bool_decide ((i, p) ∈ score_key <$> rows)
    then score_key <$> rows
    else (score_key <$> rows) ++ [(i, p)].
Proof.
  induction rows as [|r rows IH].
  - rewrite bool_decide_eq_false_2 by apply not_elem_of_nil. reflexivity.
  - cbn [upsert_score]. unfold score_key_eqb. rewrite (fmap_cons score_key r rows).
    destruct ((score_property_id r =? i)%Z && (score_profile_id r =? p)%Z) eqn:E.
    + apply andb_true_iff in E. destruct E as [E1 E2]. apply Z.eqb_eq in E1, E2.
      rewrite bool_decide_eq_true_2.
      * reflexivity.
      * unfold score_key at 1. rewrite E1, E2. left.
    + rewrite fmap_cons, IH.
      assert (Hne : score_key r <> (i, p)).
      { unfold score_key. intros [= H1 H2]. subst.
        rewrite !Z.eqb_refl in E. discriminate. }
      destruct (bool_decide ((i, p) ∈ score_key <$> rows)) eqn:B.
      * apply bool_decide_eq_true in B. rewrite bool_decide_eq_true_2; [reflexivity|].
        right. exact B.
      * apply bool_decide_eq_false in B. rewrite bool_decide_eq_false_2; [reflexivity|].
        intros H. apply elem_of_cons in H. destruct H as [H|H]; [congruence|auto].
Qed.

Lemma upsert_score_NoDup rows i p s bd now :
  NoDup (score_key <$> rows) -> NoDup (score_key <$> upsert_score rows i p s bd now).
Proof.
  intros Hnd. rewrite upsert_score_keys. case_bool_decide as Hin; [exact Hnd|].
  apply NoDup_app. split; [exact Hnd|]. split.
  - intros k Hk Hk'. apply list_elem_of_singleton in Hk'. subst. contradiction.
  - apply NoDup_singleton.
Qed.

Lemma NoDup_fmap_eq {A B} (f : A -> B) (l : list A) x y :
  NoDup (f <$> l) -> x ∈ l -> y ∈ l -> f x = f y -> x = y.
Proof.
  induction l as [|a l IH]; intros Hnd Hx Hy Hf; [inversion Hx|].
  rewrite fmap_cons in Hnd. apply NoDup_cons in Hnd. destruct Hnd as [Hnot Hnd].
  apply elem_of_cons in Hx. apply elem_of_cons in Hy.
  destruct Hx as [->|Hx], Hy as [->|Hy]; auto.
  - exfalso. apply Hnot. rewrite Hf. apply list_elem_of_fmap. eauto.
  - exfalso. apply Hnot. rewrite <- Hf. apply list_elem_of_fmap. eauto.
Qed.

Section Materialisation.
Variable haversine_distance : Q -> Q -> Q -> Q -> Q.
Variable parse_float : string -> option Q.

(** What a completed pass over [props] leaves in the store. *)
Lemma compute_loop_ok db profile_id rules now props :
  forall rows c rows' c',
    compute_loop haversine_distance parse_float db profile_id rules now props rows c
    = Ok (rows', c') ->
    c' = (c + Z.of_nat (length props))%Z
    /\ (forall j q, q <> profile_id \/ (forall p, p ∈ props -> id p <> j) ->
          lookup_score rows' j q = lookup_score rows j q)
    /\ (forall p, p ∈ props ->
          exists p' s bd,
            p' ∈ props /\ id p' = id p
            /\ _score_property haversine_distance parse_float db p' rules = Ok (s, bd)
            /\ lookup_score rows' (id p) profile_id
               = Some {| score_property_id := id p; score_profile_id := profile_id;
                         total_score := s; breakdown := bd; computed_at := now |})
    /\ (NoDup (score_key <$> rows) -> NoDup (score_key <$> rows')).
Proof.
  induction props as [|p0 rest IH]; intros rows c rows' c'; simpl.
  - intros [= <- <-]. split; [lia|]. split; [auto|]. split; [|auto].
    intros p Hp. inversion Hp.
  - destruct (_score_property haversine_distance parse_float db p0 rules)
      as [[s0 bd0]|] eqn:Es; cbn [bind]; [|discriminate].
    intros Hloop. apply IH in Hloop.
    destruct Hloop as (Hc & Hother & Hscored & Hnd).
    split; [lia|]. split; [|split].
    + intros j q Hjq. rewrite Hother.
      * rewrite lookup_upsert_score. unfold score_key_eqb. simpl.
        destruct ((id p0 =? j)%Z && (profile_id =? q)%Z) eqn:E; [|reflexivity].
        apply andb_true_iff in E. destruct E as [E1 E2]. apply Z.eqb_eq in E1, E2.
        exfalso. destruct Hjq as [H|H]; [congruence|].
        apply (H p0); [left|exact E1].
      * destruct Hjq as [H|H]; [left; exact H|right].
        intros p Hp. apply H. right. exact Hp.
    + intros p Hp.
      destruct (decide (id p ∈ id <$> rest)) as [Hin|Hnotin].
      * apply list_elem_of_fmap in Hin. destruct Hin as (p'' & Hid & Hp'').
        destruct (Hscored p'' Hp'') as (p' & s & bd & Hp' & Hid' & Hs & Hl).
        exists p', s, bd. rewrite Hid. split; [right; exact Hp'|].
        split; [exact Hid'|]. split; [exact Hs|exact Hl].
      * assert (p = p0) as ->.
        { apply elem_of_cons in Hp. destruct Hp as [->|Hp]; [reflexivity|].
          exfalso. apply Hnotin. apply list_elem_of_fmap. eauto. }
        exists p0, s0, bd0. split; [left|]. split; [reflexivity|].
        split; [exact Es|].
        rewrite Hother.
        -- rewrite lookup_upsert_score. unfold score_key_eqb. simpl.
           rewrite !Z.eqb_refl. reflexivity.
        -- right. intros p Hp' Hid. apply Hnotin.
           apply list_elem_of_fmap. exists p. auto.
    + intros H. apply Hnd. apply upsert_score_NoDup. exact H.
Qed.

(** X11.  A completed run for a profile with at least one rule returns
    the number of listings in the catalog, leaves the catalog tables as
    they were, and afterwards every listing has a score row under
    (listing id, profile id), stamped with the time of the run; when listing
    ids are unique, the row holds exactly the total and the breakdown that
    [_score_property] gives for that listing. *)
Theorem compute_scores_materialises (db db' : DB) (now profile_id n : Z)
  (profile : SearchProfile) :
  get_profile db profile_id = Some profile ->
  scoring_rules profile <> [] ->
  compute_scores haversine_distance parse_float db now profile_id = (db', Ok n) ->
  n = Z.of_nat (length (properties db))
  /\ properties db' = properties db /\ pois db' = pois db
  /\ property_poi_distances db' = property_poi_distances db
  /\ search_profiles db' = search_profiles db
  /\ forall p, p ∈ properties db ->
       exists row,
         lookup_score (property_scores db') (id p) profile_id = Some row
         /\ computed_at row = now
         /\ (NoDup (id <$> properties db) ->
             _score_property haversine_distance parse_float db p
                             (scoring_rules profile)
             = Ok (total_score row, breakdown row)).
Proof.
  intros Hp Hrules. unfold compute_scores. rewrite Hp.
  destruct (scoring_rules profile) as [|r rules] eqn:Er; [congruence|].
  destruct (compute_loop _ _ _ _ _ _ _ _ _) as [[rows' c']|] eqn:Hloop;
    [|discriminate].
  intros [= <- <-]. apply compute_loop_ok in Hloop.
  destruct Hloop as (Hc & _ & Hscored & _).
  split; [lia|]. repeat (split; [reflexivity|]).
  intros p Hin. destruct (Hscored p Hin) as (p' & s & bd & Hp' & Hid & Hs & Hl).
  eexists. split; [exact Hl|]. split; [reflexivity|].
  intros Hnd. simpl.
  rewrite <- (NoDup_fmap_eq id (properties db) p' p Hnd Hp' Hin Hid). exact Hs.
Qed.

(** X12.  A run for one profile changes no score row of another profile
    and no row of a listing that is not in the catalog; whatever the
    outcome of the run. *)
Theorem compute_scores_other_keys_untouched (db : DB) (now profile_id : Z)
  (property_id profile_id' : Z) :
  profile_id' <> profile_id \/ (forall p, p ∈ properties db -> id p <> property_id) ->
  lookup_score
    (property_scores (compute_scores haversine_distance parse_float db now profile_id).1)
    property_id profile_id'
  = lookup_score (property_scores db) property_id profile_id'.
Proof.
  intros Hkey. unfold compute_scores.
  destruct (get_profile db profile_id) as [profile|]; [|reflexivity].
  destruct (scoring_rules profile) as [|r rules]; [reflexivity|].
  destruct (compute_loop _ _ _ _ _ _ _ _ _) as [[rows' c']|] eqn:Hloop;
    [|reflexivity].
  apply compute_loop_ok in Hloop. destruct Hloop as (_ & Hother & _).
  simpl. apply Hother. exact Hkey.
Qed.

(** X13.  The primary key of the score table is kept: when no two rows
    share (listing id, profile id) before a run, none do after it, and no
    key that had a row loses it. *)
Theorem compute_scores_keeps_keys_unique (db : DB) (now profile_id : Z) :
  NoDup (score_key <$> property_scores db) ->
  NoDup (score_key <$>
           property_scores
             (compute_scores haversine_distance parse_float db now profile_id).1)
  /\ forall j q,
      is_Some (lookup_score (property_scores db) j q) ->
      is_Some (lookup_score
                 (property_scores
                    (compute_scores haversine_distance parse_float db now profile_id).1)
                 j q).
Proof.
  intros Hnd. unfold compute_scores.
  destruct (get_profile db profile_id) as [profile|]; [|auto].
  destruct (scoring_rules profile) as [|r rules]; [auto|].
  destruct (compute_loop _ _ _ _ _ _ _ _ _) as [[rows' c']|] eqn:Hloop; [|auto].
  apply compute_loop_ok in Hloop. destruct Hloop as (_ & Hother & Hscored & Hkeep).
  simpl. split; [auto|].
  intros j q Hsome.
  destruct (decide (q = profile_id)) as [->|Hq]; [|rewrite Hother; auto].
  destruct (decide (j ∈ id <$> properties db)) as [Hin|Hnotin].
  - apply list_elem_of_fmap in Hin. destruct Hin as (p & -> & Hp).
    destruct (Hscored p Hp) as (p' & s & bd & _ & _ & _ & Hl). rewrite Hl. eauto.
  - rewrite Hother; [exact Hsome|]. right. intros p Hp Hid. apply Hnotin.
    apply list_elem_of_fmap. exists p. auto.
Qed.

End Materialisation.

Lemma flat_map_bind {A B} (f : A -> list B) (l : list A) : flat_map f l = l ≫= f.
Proof. induction l as [|x l IH]; [reflexivity|]. simpl. rewrite IH. reflexivity. Qed.

Lemma stdlib_filter_NoDup {A} (f : A -> bool) (l : list A) :
  NoDup l -> NoDup (List.filter f l).
Proof.
  induction 1 as [|x l Hx _ IH]; simpl; [constructor|].
  destruct (f x); [|exact IH]. constructor; [|exact IH].
  intros Hin. apply Hx. apply list_elem_of_In in Hin. apply filter_In in Hin.
  apply list_elem_of_In. tauto.
Qed.

Lemma ranked_rows_NoDup db profile_id :
  NoDup (score_key <$> property_scores db) ->
  NoDup (id <$> properties db) ->
  NoDup (ranked_rows db profile_id) /\ NoDup (ranked_rows db profile_id).*2.
Proof.
  intros Hkeys Hids.
  assert (Hnd : NoDup (ranked_rows db profile_id)).
  { unfold ranked_rows. rewrite flat_map_bind. apply NoDup_bind.
    - intros s1 s2 [s p] _ _ H1 H2.
      destruct (score_profile_id s1 =? profile_id)%Z; [|inversion H1].
      destruct (score_profile_id s2 =? profile_id)%Z; [|inversion H2].
      apply list_elem_of_In, in_map_iff in H1. destruct H1 as (? & [= <- _] & _).
      apply list_elem_of_In, in_map_iff in H2. destruct H2 as (? & [= <- _] & _).
      reflexivity.
    - intros s _. destruct (score_profile_id s =? profile_id)%Z; [|constructor].
      apply (NoDup_fmap_2 (pair s)). apply stdlib_filter_NoDup.
      apply (NoDup_fmap_1 id). exact Hids.
    - apply (NoDup_fmap_1 score_key). exact Hkeys. }
  split; [exact Hnd|].
  apply NoDup_fmap_2_strong; [|exact Hnd].
  intros [s1 p1] [s2 p2] H1 H2 Hp. simpl in Hp. subst p2.
  apply ranked_rows_spec in H1. apply ranked_rows_spec in H2.
  destruct H1 as (Hs1 & Hq1 & _ & Hid1), H2 as (Hs2 & Hq2 & _ & Hid2).
  f_equal. apply (NoDup_fmap_eq score_key (property_scores db)); auto.
  unfold score_key. congruence.
Qed.

Section RankingAfterCompute.
Variable haversine_distance : Q -> Q -> Q -> Q -> Q.
Variable parse_float : string -> option Q.

(** X14.  After a completed run for a profile with at least one rule, on
    a catalog with unique listing ids and a store with unique keys, the
    ranking of that profile lists every listing of the catalog exactly
    once. *)
Theorem ranking_after_compute_lists_every_listing (db db' : DB)
  (now profile_id n : Z) (profile : SearchProfile) :
  NoDup (id <$> properties db) ->
  NoDup (score_key <$> property_scores db) ->
  get_profile db profile_id = Some profile ->
  scoring_rules profile <> [] ->
  compute_scores haversine_distance parse_float db now profile_id = (db', Ok n) ->
  (get_ranked_properties db' profile_id).*2 ≡ₚ properties db.
Proof.
  intros Hids Hkeys Hp Hrules. unfold compute_scores. rewrite Hp.
  destruct (scoring_rules profile) as [|r rules] eqn:Er; [congruence|].
  destruct (compute_loop _ _ _ _ _ _ _ _ _) as [[rows' c']|] eqn:Hloop;
    [|discriminate].
  intros [= <- <-]. apply compute_loop_ok in Hloop.
  destruct Hloop as (_ & _ & Hrows & Hkeys').
  specialize (Hkeys' Hkeys).
  assert (Hprops : properties (with_scores db rows') = properties db) by reflexivity.
  change (property_scores db) with (property_scores db) in Hkeys.
  unfold get_ranked_properties. rewrite sort_by_desc_perm.
  destruct (ranked_rows_NoDup (with_scores db rows') profile_id Hkeys' Hids)
    as [_ Hnd].
  apply NoDup_Permutation; [exact Hnd|apply (NoDup_fmap_1 id); exact Hids|].
  intros p. rewrite list_elem_of_fmap. split.
  - intros ([s p'] & -> & Hin). apply ranked_rows_spec in Hin.
    destruct Hin as (_ & _ & Hin & _). exact Hin.
  - intros Hin. destruct (Hrows p Hin) as (p' & s & bd & _ & _ & _ & Hl).
    apply lookup_score_Some in Hl. destruct Hl as (Hrow & Hj & Hq).
    eexists (_, p). split; [reflexivity|].
    apply ranked_rows_spec. split; [exact Hrow|]. split; [exact Hq|].
    split; [exact Hin|]. symmetry. exact Hj.
Qed.

End RankingAfterCompute.

(** * Further properties of the proximity search and its callers *)

Lemma py_round_nonneg x n : 0 <= x -> 0 <= py_round x n.
Proof.
  intros Hx. unfold py_round.
  assert (Hs : 0 < inject_Z (10 ^ Z.of_nat n)).
  { change 0 with (inject_Z 0). rewrite <- Zlt_Qlt. apply Z.pow_pos_nonneg; lia. }
  set (scale := inject_Z (10 ^ Z.of_nat n)) in *.
  assert (Hxs : inject_Z 0 <= x * scale).
  { change (inject_Z 0) with 0. apply Qmult_le_0_compat; lra. }
  pose proof (Qfloor_resp_le _ _ Hxs) as Hf. rewrite Qfloor_Z in Hf.
  assert (Hr : (0 <= round_half_even (x * scale))%Z).
  { unfold round_half_even.
    destruct (Qltb _ _); [exact Hf|]. destruct (Qltb _ _); [lia|].
    destruct (Z.even _); lia. }
  apply Qle_shift_div_l; [exact Hs|].
  rewrite Qmult_0_l. change 0 with (inject_Z 0). rewrite <- Zle_Qle. exact Hr.
Qed.

Lemma sorted_app_ordered {A} (R : A -> A -> Prop) (l1 l2 : list A) x1 x2 :
  StronglySorted R (l1 ++ l2) -> x1 ∈ l1 -> x2 ∈ l2 -> R x1 x2.
Proof.
  induction l1 as [|a l1 IH]; intros Hs H1 H2; [inversion H1|].
  simpl in Hs. apply StronglySorted_inv in Hs. destruct Hs as [Hs Hall].
  apply elem_of_cons in H1. destruct H1 as [->|H1]; [|auto].
  rewrite List.Forall_forall in Hall. apply Hall.
  apply in_or_app. right. apply list_elem_of_In. exact H2.
Qed.

Section ProximitySearch.
Variable haversine_distance : Q -> Q -> Q -> Q -> Q.

(** Membership in the result of [find_nearby], and its order. *)
Lemma find_nearby_elem db lat lng radius_m category it :
  it ∈ find_nearby haversine_distance db lat lng radius_m category <->
  exists la lo,
    item_poi it ∈ pois db
    /\ poi_latitude (item_poi it) = Some la
    /\ poi_longitude (item_poi it) = Some lo
    /\ (forall c, category = Some c -> c <> 0%Z -> category_id (item_poi it) = c)
    /\ haversine_distance lat lng la lo <= radius_m
    /\ item_distance_m it = py_round (haversine_distance lat lng la lo) 1.
Proof.
  unfold find_nearby. rewrite sort_by_perm, list_elem_of_omap. split.
  - intros ([[p la] lo] & Hin & Hf).
    apply located_pois_spec in Hin. destruct Hin as (Hp & Ela & Elo & Hcat).
    destruct (Qle_bool (haversine_distance lat lng la lo) radius_m) eqn:E;
      [|discriminate].
    inversion Hf; subst; simpl. apply Qle_bool_iff in E.
    exists la, lo. repeat split; auto.
  - intros (la & lo & Hp & Ela & Elo & Hcat & Hle & Hd).
    exists (item_poi it, la, lo). split.
    + apply located_pois_spec. repeat split; auto.
    + apply Qle_bool_iff in Hle. rewrite Hle.
      destruct it as [p d]; simpl in *. rewrite Hd. reflexivity.
Qed.

Lemma find_nearby_sorted db lat lng radius_m category :
  StronglySorted (fun a b => item_distance_m a <= item_distance_m b)
    (find_nearby haversine_distance db lat lng radius_m category).
Proof. apply sort_by_sorted. Qed.

Lemma find_nearby_wider db lat lng r1 r2 category it :
  r1 <= r2 ->
  it ∈ find_nearby haversine_distance db lat lng r1 category ->
  it ∈ find_nearby haversine_distance db lat lng r2 category
  /\ it ∈ find_nearby haversine_distance db lat lng r2 None.
Proof.
  intros Hr Hin. apply find_nearby_elem in Hin.
  destruct Hin as (la & lo & Hp & Ela & Elo & Hcat & Hd & Hdist).
  split; apply find_nearby_elem;
    exists la, lo; repeat split; auto; try lra.
  intros c [=].
Qed.

(** X15.  Widening the radius or dropping the category filter never
    loses a result: what [find_nearby] returns for a radius and a category
    it also returns, with the same reported distance, for any larger radius
    and for no category. *)
Theorem find_nearby_monotone (db : DB) (lat lng r1 r2 : Q) (category : option Z)
  (it : NearbyItem) :
  r1 <= r2 ->
  it ∈ find_nearby haversine_distance db lat lng r1 category ->
  it ∈ find_nearby haversine_distance db lat lng r2 category
  /\ it ∈ find_nearby haversine_distance db lat lng r2 None.
Proof.
  intros Hr Hin. apply find_nearby_elem in Hin.
  destruct Hin as (la & lo & Hp & Ela & Elo & Hcat & Hd & Hdist).
  assert (Hd' : haversine_distance lat lng la lo <= r2) by lra.
  split; apply find_nearby_elem; exists la, lo.
  - repeat split; assumption.
  - repeat split; try assumption. intros c [=].
Qed.

(** X16.  A POI on the equator or on the prime meridian is a result of
    [find_nearby] like any other POI with coordinates, whereas the live
    distance computation of the scoring rules passes it over. *)
Theorem find_nearby_keeps_zero_coordinates (db : DB) (lat lng radius_m : Q)
  (p : POI) (la lo : Q) :
  p ∈ pois db ->
  poi_latitude p = Some la -> poi_longitude p = Some lo ->
  la == 0 \/ lo == 0 ->
  haversine_distance lat lng la lo <= radius_m ->
  {| item_poi := p; item_distance_m := py_round (haversine_distance lat lng la lo) 1 |}
    ∈ find_nearby haversine_distance db lat lng radius_m None
  /\ live_distances haversine_distance lat lng [p] = [].
Proof.
  intros Hp Ela Elo Hz Hd. split.
  - apply find_nearby_elem. exists la, lo.
    repeat split; auto. intros c [=].
  - unfold live_distances. simpl. rewrite Ela, Elo. simpl.
    destruct Hz as [Hz|Hz]; apply Qeq_bool_iff in Hz; rewrite Hz;
      [reflexivity|]. destruct (Qeq_bool la 0); reflexivity.
Qed.

(** X17.  With a distance function that is never negative, every
    distance [find_nearby] reports is non-negative, and a negative radius
    gives no result. *)
Theorem find_nearby_nonnegative (db : DB) (lat lng radius_m : Q)
  (category : option Z) :
  (forall lat1 lon1 lat2 lon2, 0 <= haversine_distance lat1 lon1 lat2 lon2) ->
  (forall it, it ∈ find_nearby haversine_distance db lat lng radius_m category ->
     0 <= item_distance_m it)
  /\ (radius_m < 0 ->
      find_nearby haversine_distance db lat lng radius_m category = []).
Proof.
  intros Hnonneg. split.
  - intros it Hin. apply find_nearby_elem in Hin.
    destruct Hin as (la & lo & _ & _ & _ & _ & _ & ->).
    apply py_round_nonneg, Hnonneg.
  - intros Hneg. apply elem_of_nil_inv. intros it Hin.
    apply find_nearby_elem in Hin.
    destruct Hin as (la & lo & _ & _ & _ & _ & Hd & _).
    specialize (Hnonneg lat lng la lo). lra.
Qed.

(** X18.  [search_pois] returns at most 20 results, all of them results
    of [find_nearby] for the same centre and radius; no result it leaves
    out is reported nearer than one it returns; a positive category id
    restricts the results to that category, and any id that is not positive
    searches all categories. *)
Theorem search_pois_nearest_twenty (db : DB) (lat lng radius_m : Q) (category_id' : Z) :
  (length (search_pois haversine_distance db lat lng radius_m category_id') <= 20)%nat
  /\ (forall a b,
        a ∈ search_pois haversine_distance db lat lng radius_m category_id' ->
        b ∈ drop 20 (find_nearby haversine_distance db lat lng radius_m
                       (if (0 <? category_id')%Z then Some category_id' else None)) ->
        item_distance_m a <= item_distance_m b)
  /\ (forall it,
        it ∈ search_pois haversine_distance db lat lng radius_m category_id' ->
        it ∈ find_nearby haversine_distance db lat lng radius_m None
        /\ ((0 < category_id')%Z -> category_id (item_poi it) = category_id'))
  /\ ((category_id' <= 0)%Z ->
      search_pois haversine_distance db lat lng radius_m category_id'
      = take 20 (find_nearby haversine_distance db lat lng radius_m None)).
Proof.
  unfold search_pois.
  set (cat := if (0 <? category_id')%Z then Some category_id' else None).
  split; [rewrite length_take; lia|]. split; [|split].
  - intros a b Ha Hb.
    pose proof (find_nearby_sorted db lat lng radius_m cat) as Hsorted.
    rewrite <- (take_drop 20) in Hsorted.
    exact (sorted_app_ordered _ _ _ _ _ Hsorted Ha Hb).
  - intros it Hin. apply subseteq_take in Hin. split.
    + apply (find_nearby_wider db lat lng radius_m radius_m cat it); [lra|exact Hin].
    + intros Hpos. apply find_nearby_elem in Hin.
      destruct Hin as (la & lo & _ & _ & _ & Hcat & _).
      apply Hcat; [|lia]. unfold cat.
      apply Z.ltb_lt in Hpos. rewrite Hpos. reflexivity.
  - intros Hle. unfold cat.
    assert (E : (0 <? category_id')%Z = false) by (apply Z.ltb_ge; exact Hle).
    rewrite E. reflexivity.
Qed.

End ProximitySearch.

(** ** Area statistics *)

Lemma round_half_even_floor x :
  (Qfloor x <= round_half_even x <= Qfloor x + 1)%Z.
Proof.
  unfold round_half_even.
  destruct (Qltb _ _); [lia|]. destruct (Qltb _ _); [lia|].
  destruct (Z.even _); lia.
Qed.

Lemma round_half_even_mono x y : x <= y -> (round_half_even x <= round_half_even y)%Z.
Proof.
  intros Hxy. pose proof (Qfloor_resp_le _ _ Hxy) as Hf.
  destruct (Z.eq_dec (Qfloor x) (Qfloor y)) as [E|E].
  - unfold round_half_even. rewrite E.
    set (f := Qfloor y) in *.
    destruct (Qltb (x - inject_Z f) (1 # 2)) eqn:X1.
    + destruct (Qltb (y - inject_Z f) (1 # 2)); [lia|].
      destruct (Qltb (1 # 2) (y - inject_Z f)); [lia|].
      destruct (Z.even f); lia.
    + apply Qltb_ge in X1.
      destruct (Qltb (y - inject_Z f) (1 # 2)) eqn:Y1;
        [apply Qltb_lt in Y1; lra|].
      destruct (Qltb (1 # 2) (x - inject_Z f)) eqn:X2.
      * apply Qltb_lt in X2.
        destruct (Qltb (1 # 2) (y - inject_Z f)) eqn:Y2; [lia|].
        apply Qltb_ge in Y2. lra.
      * destruct (Qltb (1 # 2) (y - inject_Z f)); [destruct (Z.even f); lia|lia].
  - pose proof (round_half_even_floor x). pose proof (round_half_even_floor y). lia.
Qed.

Lemma py_round_mono x y n : x <= y -> py_round x n <= py_round y n.
Proof.
  intros Hxy. unfold py_round.
  assert (Hs : 0 < inject_Z (10 ^ Z.of_nat n)).
  { change 0 with (inject_Z 0). rewrite <- Zlt_Qlt. apply Z.pow_pos_nonneg; lia. }
  set (scale := inject_Z (10 ^ Z.of_nat n)) in *.
  assert (H : x * scale <= y * scale) by (apply Qmult_le_compat_r; lra).
  apply round_half_even_mono in H. rewrite Zle_Qle in H.
  unfold Qdiv. apply Qmult_le_compat_r; [exact H|].
  apply Qlt_le_weak, Qinv_lt_0_compat, Hs.
Qed.

Lemma least_le_mean (ds : list Q) (m : Q) :
  ds <> [] -> (forall d, d ∈ ds -> m <= d) ->
  m <= Qsum ds / inject_Z (Z.of_nat (length ds)).
Proof.
  intros Hne Hm.
  assert (Hsum : m * inject_Z (Z.of_nat (length ds)) <= Qsum ds).
  { clear Hne. induction ds as [|d ds IH].
    - change (inject_Z (Z.of_nat (length (@nil Q)))) with 0.
      unfold Qsum. cbn [fold_left]. lra.
    - cbn [length]. rewrite Qsum_cons, Nat2Z.inj_succ, <- Z.add_1_r, inject_Z_plus.
      change (inject_Z 1) with 1.
      assert (m <= d) by (apply Hm; left).
      assert (m * inject_Z (Z.of_nat (length ds)) <= Qsum ds)
        by (apply IH; intros d' Hd'; apply Hm; right; exact Hd').
      lra. }
  apply Qle_shift_div_l; [|exact Hsum].
  change 0 with (inject_Z 0). rewrite <- Zlt_Qlt.
  destruct ds; [congruence|simpl; lia].
Qed.

Lemma assoc_stats_add c d (stats : list (option string * (Z * list Q))) c' :
  assoc c' (stats_add c d stats)
  = if bool_decide (c' = c)
    then Some (match assoc c stats with
               | Some (n, ds) => ((n + 1)%Z, ds ++ [d])
               | None => (1%Z, [d])
               end)
    else assoc c' stats.
Proof.
  unfold assoc. induction stats as [|[c0 [n ds]] rest IH]; simpl.
  - repeat case_bool_decide; simpl; congruence.
  - destruct (decide (c0 = c)) as [->|Hne]; simpl.
    + rewrite (bool_decide_eq_true_2 (c = c)) by reflexivity. simpl.
      repeat case_bool_decide; simpl; congruence.
    + rewrite (bool_decide_eq_false_2 (c0 = c)) by exact Hne.
      destruct (bool_decide (c0 = c')) eqn:H1; simpl.
      * apply bool_decide_eq_true in H1. subst c'.
        rewrite (bool_decide_eq_false_2 (c0 = c)) by exact Hne. reflexivity.
      * exact IH.
Qed.

Lemma stats_add_keys c d (stats : list (option string * (Z * list Q))) :
  (stats_add c d stats).*1 = if bool_decide (c ∈ stats.*1) then stats.*1
                             else stats.*1 ++ [c].
Proof.
  induction stats as [|[c0 [n ds]] rest IH].
  - rewrite bool_decide_eq_false_2 by apply not_elem_of_nil. reflexivity.
  - cbn [stats_add]. destruct (decide (c0 = c)) as [->|Hne].
    + rewrite bool_decide_eq_true_2 by (simpl; left). reflexivity.
    + rewrite !fmap_cons, IH. cbn [fst].
      case_bool_decide as H1.
      * rewrite bool_decide_eq_true_2 by (right; exact H1). reflexivity.
      * rewrite bool_decide_eq_false_2; [reflexivity|].
        intros H. apply elem_of_cons in H. destruct H as [H|H]; [congruence|auto].
Qed.

Lemma stats_add_counts c d (stats : list (option string * (Z * list Q))) :
  fold_right Z.add 0%Z ((fun e => e.2.1) <$> stats_add c d stats)
  = (fold_right Z.add 0%Z ((fun e => e.2.1) <$> stats) + 1)%Z.
Proof.
  induction stats as [|[c0 [n ds]] rest IH]; [reflexivity|].
  cbn [stats_add]. destruct (decide (c0 = c)); rewrite !fmap_cons; cbn [fold_right fst snd].
  - lia.
  - rewrite IH. lia.
Qed.

Lemma area_stats_snoc categories results it :
  area_stats categories (results ++ [it])
  = stats_add (category_name_of categories (item_poi it)) (item_distance_m it)
              (area_stats categories results).
Proof. unfold area_stats. rewrite fold_left_app. reflexivity. Qed.

Lemma distances_of_snoc categories c results it :
  distances_of categories c (results ++ [it])
  = distances_of categories c results
    ++ (if bool_decide (category_name_of categories (item_poi it) = c)
        then [item_distance_m it] else []).
Proof.
  unfold distances_of. rewrite List.filter_app, fmap_app. simpl.
  destruct (bool_decide _); reflexivity.
Qed.

(** The first loop groups the distances by category name, in order. *)
Lemma area_stats_spec categories results :
  NoDup (area_stats categories results).*1
  /\ fold_right Z.add 0%Z ((fun e => e.2.1) <$> area_stats categories results)
     = Z.of_nat (length results)
  /\ forall c,
      assoc c (area_stats categories results)
      = match distances_of categories c results with
        | [] => None
        | ds => Some (Z.of_nat (length ds), ds)
        end.
Proof.
  induction results as [|it results (Hnd & Hcount & Hassoc)] using rev_ind.
  - split; [constructor|]. split; reflexivity.
  - rewrite area_stats_snoc. split; [|split].
    + rewrite stats_add_keys. case_bool_decide as Hin; [exact Hnd|].
      apply NoDup_app. split; [exact Hnd|]. split; [|apply NoDup_singleton].
      intros k Hk Hk'. apply list_elem_of_singleton in Hk'. subst. contradiction.
    + rewrite stats_add_counts, Hcount, length_app. simpl. lia.
    + intros c. rewrite assoc_stats_add, distances_of_snoc.
      case_bool_decide as Hc.
      * subst c. rewrite (bool_decide_eq_true_2 _ eq_refl), Hassoc.
        destruct (distances_of _ _ results) as [|d ds]; [reflexivity|].
        simpl. rewrite length_app. simpl.
        do 2 f_equal. lia.
      * rewrite bool_decide_eq_false_2 by congruence.
        rewrite app_nil_r. apply Hassoc.
Qed.

Lemma assoc_of_elem {V} (stats : list (option string * V)) c v :
  NoDup stats.*1 -> (c, v) ∈ stats -> assoc c stats = Some v.
Proof.
  unfold assoc. induction stats as [|[c0 v0] rest IH]; intros Hnd Hin;
    [inversion Hin|].
  rewrite fmap_cons in Hnd. apply NoDup_cons in Hnd. destruct Hnd as [Hnot Hnd].
  apply elem_of_cons in Hin. simpl.
  destruct Hin as [[= -> ->]|Hin].
  - rewrite bool_decide_eq_true_2 by reflexivity. reflexivity.
  - rewrite bool_decide_eq_false_2; [apply IH; assumption|].
    simpl. intros ->. apply Hnot. apply list_elem_of_fmap. exists (c, v). auto.
Qed.

Lemma finish_all_spec (stats : list (option string * (Z * list Q))) :
  (forall c n ds, (c, (n, ds)) ∈ stats -> ds <> []) ->
  exists out,
    finish_all stats = Ok out
    /\ out.*1 = stats.*1
    /\ fold_right Z.add 0%Z ((fun e => stat_count e.2) <$> out)
       = fold_right Z.add 0%Z ((fun e => e.2.1) <$> stats)
    /\ forall c st, (c, st) ∈ out ->
         exists n ds, (c, (n, ds)) ∈ stats /\ finish_stats (n, ds) = Ok st.
Proof.
  induction stats as [|[c [n ds]] rest IH]; intros Hne.
  - exists []. repeat split. intros c st Hin. inversion Hin.
  - destruct IH as (out & Hout & Hkeys & Hcount & Hel).
    { intros c' n' ds' Hin. apply (Hne c' n' ds'). right. exact Hin. }
    assert (Hds : ds <> []) by (apply (Hne c n ds); left).
    destruct ds as [|d ds]; [congruence|].
    cbn [finish_all finish_stats py_min_list bind]. rewrite Hout. cbn [bind].
    eexists. split; [reflexivity|]. split; [|split].
    + rewrite !fmap_cons, Hkeys. reflexivity.
    + rewrite !fmap_cons. cbn [fold_right fst snd stat_count]. rewrite Hcount.
      reflexivity.
    + intros c' st Hin. apply elem_of_cons in Hin. destruct Hin as [[= -> ->]|Hin].
      * exists n, (d :: ds). split; [left|reflexivity].
      * destruct (Hel c' st Hin) as (n' & ds' & Hin' & Hf).
        exists n', ds'. split; [right; exact Hin'|exact Hf].
Qed.

Section AreaStatistics.
Variable haversine_distance : Q -> Q -> Q -> Q -> Q.

(** X19.  [get_area_stats] never raises.  Its [total_pois] is the number
    of results of [find_nearby] without a category, and the counts of the
    categories add up to it; each category name appears once; for each
    category the count is the number of results of that name, the average
    is taken over exactly their reported distances, and [nearest] never
    exceeds [avg_distance]. *)
Theorem get_area_stats_summary (categories : list POICategory) (db : DB)
  (lat lng radius_m : Q) :
  exists summary,
    get_area_stats haversine_distance categories db lat lng radius_m = Ok summary
    /\ total_pois summary
       = length (find_nearby haversine_distance db lat lng radius_m None)
    /\ fold_right Z.add 0%Z ((fun e => stat_count e.2) <$> summary_categories summary)
       = Z.of_nat (total_pois summary)
    /\ NoDup (summary_categories summary).*1
    /\ forall c st, (c, st) ∈ summary_categories summary ->
         distances_of categories c
           (find_nearby haversine_distance db lat lng radius_m None) <> []
         /\ stat_count st
            = Z.of_nat (length (distances_of categories c
                 (find_nearby haversine_distance db lat lng radius_m None)))
         /\ stat_avg_distance st
            = py_round
                (Qsum (distances_of categories c
                         (find_nearby haversine_distance db lat lng radius_m None))
                 / inject_Z (Z.of_nat (length (distances_of categories c
                         (find_nearby haversine_distance db lat lng radius_m None))))) 1
         /\ stat_nearest st <= stat_avg_distance st.
Proof.
  unfold get_area_stats.
  set (results := find_nearby haversine_distance db lat lng radius_m None).
  destruct (area_stats_spec categories results) as (Hnd & Hcount & Hassoc).
  assert (Hentry : forall c n ds,
             (c, (n, ds)) ∈ area_stats categories results ->
             ds = distances_of categories c results
             /\ ds <> [] /\ n = Z.of_nat (length ds)).
  { intros c n ds Hin. apply (assoc_of_elem _ _ _ Hnd) in Hin.
    rewrite Hassoc in Hin.
    destruct (distances_of categories c results) as [|d0 ds0]; [discriminate|].
    inversion Hin; subst. repeat split. discriminate. }
  destruct (finish_all_spec (area_stats categories results))
    as (out & Hout & Hkeys & Hsum & Hel).
  { intros c n ds Hin. apply (Hentry c n ds Hin). }
  rewrite Hout. cbn [bind]. eexists. split; [reflexivity|].
  cbn [total_pois summary_categories].
  split; [reflexivity|]. split; [rewrite Hsum; exact Hcount|].
  split; [rewrite Hkeys; exact Hnd|].
  intros c st Hin. destruct (Hel c st Hin) as (n & ds & Hin' & Hf).
  destruct (Hentry c n ds Hin') as (Hds & Hne & Hn).
  rewrite <- Hds. split; [exact Hne|].
  destruct ds as [|d ds']; [congruence|].
  cbn [finish_stats py_min_list bind] in Hf. inversion Hf; subst st; clear Hf.
  cbn [stat_count stat_avg_distance stat_nearest].
  split; [exact Hn|]. split; [reflexivity|].
  apply py_round_mono. apply least_le_mean; [discriminate|].
  intros x Hx. apply fold_py_min_least. apply list_elem_of_In. exact Hx.
Qed.

End AreaStatistics.

(** * Further properties of the POI service *)

Lemma StronglySorted_weaken {A} (R R' : A -> A -> Prop) (l : list A) :
  (forall a b, R a b -> R' a b) -> StronglySorted R l -> StronglySorted R' l.
Proof.
  intros Himp. induction 1 as [|a l Hs IH Hall]; constructor; [exact IH|].
  eapply List.Forall_impl; [|exact Hall]. intros b. apply Himp.
Qed.

Lemma list_pois_filtered_spec db category p :
  p ∈ list_pois_filtered db category
  <-> p ∈ pois db /\ (forall c, category = Some c -> c <> 0%Z -> category_id p = c).
Proof.
  unfold list_pois_filtered. destruct category as [c|]; simpl.
  - destruct (c =? 0)%Z eqn:E.
    + apply Z.eqb_eq in E. split; [|tauto]. intros H. split; [exact H|].
      intros c' [= <-] Hne. contradiction.
    + apply Z.eqb_neq in E. rewrite list_elem_of_In, filter_In, <- list_elem_of_In.
      rewrite Z.eqb_eq. split.
      * intros [H1 H2]. split; [exact H1|]. intros c' [= <-] _. exact H2.
      * intros [H1 H2]. split; [exact H1|]. apply H2; [reflexivity|exact E].
  - split; [|tauto]. intros H. split; [exact H|]. discriminate.
Qed.

Lemma list_pois_pages_take db category per_page n :
  concat ((fun k => (list_pois db category (S k) per_page).1) <$> seq 0 n)
  = take (n * per_page)
         (sort_by (fun p => inject_Z (poi_id p)) (list_pois_filtered db category)).
Proof.
  induction n as [|n IH]; [reflexivity|].
  rewrite seq_S, fmap_app, concat_app, IH. cbn [fmap list_fmap concat Nat.add].
  rewrite app_nil_r. unfold list_pois. cbn [fst].
  replace (S n - 1)%nat with n by lia.
  rewrite take_take_drop. f_equal. lia.
Qed.

(** X20.  [list_pois] pages lose and repeat nothing: every page holds at
    most [per_page] POIs and reports the number of matching POIs as total,
    whatever the page; the pages 1 to [n] laid end to end are, once
    [n * per_page] reaches the total, a rearrangement of all matching POIs
    in ascending order of id; a page that starts at or past the total is
    empty.  A POI matches when no category, or category 0, is asked for, or
    when it has the category asked for. *)
Theorem list_pois_pages (db : DB) (category : option Z) (per_page : nat) :
  (forall page,
      (length (list_pois db category page per_page).1 <= per_page)%nat
      /\ (list_pois db category page per_page).2
         = length (list_pois_filtered db category)
      /\ ((length (list_pois_filtered db category) <= (page - 1) * per_page)%nat ->
          (list_pois db category page per_page).1 = []))
  /\ (forall n,
        (length (list_pois_filtered db category) <= n * per_page)%nat ->
        concat ((fun k => (list_pois db category (S k) per_page).1) <$> seq 0 n)
          ≡ₚ list_pois_filtered db category
        /\ StronglySorted (fun a b => (poi_id a <= poi_id b)%Z)
             (concat ((fun k => (list_pois db category (S k) per_page).1) <$> seq 0 n)))
  /\ (forall p,
        p ∈ list_pois_filtered db category
        <-> p ∈ pois db
            /\ (forall c, category = Some c -> c <> 0%Z -> category_id p = c)).
Proof.
  split; [|split].
  - intros page. unfold list_pois. cbn [fst snd]. split; [|split].
    + rewrite length_take. lia.
    + reflexivity.
    + intros Hpast. rewrite drop_ge; [apply take_nil|].
      rewrite (Permutation_length (sort_by_perm _ _)). exact Hpast.
  - intros n Hn. rewrite list_pois_pages_take.
    rewrite take_ge by (rewrite (Permutation_length (sort_by_perm _ _)); exact Hn).
    split; [apply sort_by_perm|].
    eapply StronglySorted_weaken; [|apply sort_by_sorted].
    intros a b H. cbn beta in H. rewrite <- Zle_Qle in H. exact H.
  - apply list_pois_filtered_spec.
Qed.

Section CategoryWrites.
Variable next_category_id : list POICategory -> Z.
Variable next_poi_id : list POI -> Z.

Lemma find_category_app name cats c :
  find (fun c => String.eqb (cat_name c) name) cats = None ->
  cat_name c = name ->
  find (fun c => String.eqb (cat_name c) name) (cats ++ [c]) = Some c.
Proof.
  intros Hnone Hc. induction cats as [|c0 cats IH]; simpl in *.
  - rewrite Hc, String.eqb_refl. reflexivity.
  - destruct (String.eqb (cat_name c0) name); [discriminate|]. apply IH, Hnone.
Qed.

Lemma get_or_create_category_spec cat name icon color :
  let r := get_or_create_category next_category_id cat name icon color in
  cat_name r.2 = name
  /\ r.2 ∈ catalog_categories r.1
  /\ catalog_pois r.1 = catalog_pois cat
  /\ (exists new, catalog_categories r.1 = catalog_categories cat ++ new
                  /\ (length new <= 1)%nat)
  /\ (NoDup (cat_name <$> catalog_categories cat) ->
      NoDup (cat_name <$> catalog_categories r.1)).
Proof.
  unfold get_or_create_category.
  destruct (find _ (catalog_categories cat)) as [c|] eqn:E; cbn [fst snd].
  - apply find_some in E. destruct E as [Hin Hname].
    apply String.eqb_eq in Hname. split; [exact Hname|].
    split; [apply list_elem_of_In, Hin|]. split; [reflexivity|].
    split; [|auto]. exists []. rewrite app_nil_r. split; [reflexivity|simpl; lia].
  - cbn [catalog_categories catalog_pois cat_name].
    split; [reflexivity|]. split; [apply elem_of_app; right; left|].
    split; [reflexivity|]. split; [eexists; split; [reflexivity|simpl; lia]|].
    intros Hnd. rewrite fmap_app. apply NoDup_app. split; [exact Hnd|].
    split; [|apply NoDup_singleton].
    intros n Hn Hn'. apply list_elem_of_singleton in Hn'. simpl in Hn'. subst n.
    apply list_elem_of_fmap in Hn. destruct Hn as (c & Hc & Hin).
    apply list_elem_of_In in Hin. pose proof (find_none _ _ E c Hin) as Hf.
    simpl in Hf. rewrite <- Hc, String.eqb_refl in Hf. discriminate.
Qed.

(** X21.  [get_or_create_category] returns a category of the requested
    name that is in the table afterwards; it adds at most one category, at
    the end, and touches no POI; it keeps category names unique; and asking
    again for the same name returns the same category and changes nothing,
    whatever icon and colour are passed. *)
Theorem get_or_create_category_idempotent (cat : Catalog) (name : string)
  (icon color : option string) :
  cat_name (get_or_create_category next_category_id cat name icon color).2 = name
  /\ (get_or_create_category next_category_id cat name icon color).2
       ∈ catalog_categories
           (get_or_create_category next_category_id cat name icon color).1
  /\ catalog_pois (get_or_create_category next_category_id cat name icon color).1
     = catalog_pois cat
  /\ (exists new,
        catalog_categories
          (get_or_create_category next_category_id cat name icon color).1
        = catalog_categories cat ++ new
        /\ (length new <= 1)%nat)
  /\ (NoDup (cat_name <$> catalog_categories cat) ->
      NoDup (cat_name <$> catalog_categories
               (get_or_create_category next_category_id cat name icon color).1))
  /\ (forall icon' color',
        get_or_create_category next_category_id
          (get_or_create_category next_category_id cat name icon color).1
          name icon' color'
        = get_or_create_category next_category_id cat name icon color).
Proof.
  pose proof (get_or_create_category_spec cat name icon color) as H.
  cbv zeta in H. destruct H as (H1 & H2 & H3 & H4 & H5).
  repeat (split; [assumption|]).
  intros icon' color'. unfold get_or_create_category.
  destruct (find _ (catalog_categories cat)) as [c|] eqn:E; cbn [fst].
  - rewrite E. reflexivity.
  - cbn [catalog_categories].
    erewrite find_category_app; [reflexivity|exact E|reflexivity].
Qed.

Lemma bulk_create_step_skipped cat created skipped x :
  skipped_record x = true ->
  bulk_create_step next_category_id next_poi_id (cat, created, skipped) x
  = (cat, created, (skipped + 1)%Z).
Proof.
  unfold skipped_record, bulk_create_step.
  destruct (rec_category_id x); [discriminate|].
  destruct (rec_category x) as [[|a name]|]; try discriminate; reflexivity.
Qed.

Lemma bulk_create_step_given cat created skipped x cid :
  rec_category_id x = Some cid ->
  bulk_create_step next_category_id next_poi_id (cat, created, skipped) x
  = ({| catalog_categories := catalog_categories cat;
        catalog_pois :=
          catalog_pois cat
          ++ [ {| poi_id := next_poi_id (catalog_pois cat);
                  poi_name := rec_name x; category_id := cid;
                  poi_latitude := rec_latitude x;
                  poi_longitude := rec_longitude x;
                  poi_rating := rec_rating x |} ] |},
     (created + 1)%Z, skipped).
Proof.
  unfold bulk_create_step. intros ->.
  destruct (rec_category x) as [[|a name]|]; reflexivity.
Qed.

Lemma bulk_create_step_named cat created skipped x a name :
  rec_category_id x = None ->
  rec_category x = Some (String a name) ->
  bulk_create_step next_category_id next_poi_id (cat, created, skipped) x
  = let r := get_or_create_category next_category_id cat (String a name) None None in
    ({| catalog_categories := catalog_categories r.1;
        catalog_pois :=
          catalog_pois r.1
          ++ [ {| poi_id := next_poi_id (catalog_pois r.1);
                  poi_name := rec_name x; category_id := cat_id r.2;
                  poi_latitude := rec_latitude x;
                  poi_longitude := rec_longitude x;
                  poi_rating := rec_rating x |} ] |},
     (created + 1)%Z, skipped).
Proof.
  unfold bulk_create_step. intros -> ->. cbv zeta.
  destruct (get_or_create_category _ _ _ _ _) as [cat1 c]. reflexivity.
Qed.

(** The state of the loop of [bulk_create] after some records. *)
Lemma bulk_create_loop records :
  forall cat created skipped,
    let r := fold_left (bulk_create_step next_category_id next_poi_id) records
                       (cat, created, skipped) in
    r.1.2 = (created + Z.of_nat (length (List.filter (fun x => negb (skipped_record x))
                                                      records)))%Z
    /\ r.2 = (skipped + Z.of_nat (length (List.filter skipped_record records)))%Z
    /\ (exists new_pois,
          catalog_pois r.1.1 = catalog_pois cat ++ new_pois
          /\ Forall2 (fun x p =>
                        poi_name p = rec_name x
                        /\ poi_latitude p = rec_latitude x
                        /\ poi_longitude p = rec_longitude x
                        /\ poi_rating p = rec_rating x
                        /\ match rec_category_id x with
                           | Some cid => category_id p = cid
                           | None => exists c, c ∈ catalog_categories r.1.1
                                               /\ cat_id c = category_id p
                                               /\ Some (cat_name c) = rec_category x
                           end)
                     (List.filter (fun x => negb (skipped_record x)) records)
                     new_pois)
    /\ (exists new_cats,
          catalog_categories r.1.1 = catalog_categories cat ++ new_cats)
    /\ (NoDup (cat_name <$> catalog_categories cat) ->
        NoDup (cat_name <$> catalog_categories r.1.1)).
Proof.
  induction records as [|x records IH]; intros cat created skipped; cbv zeta.
  - cbn [fold_left fst snd List.filter length].
    split; [lia|]. split; [lia|].
    split; [exists []; rewrite app_nil_r; split; [reflexivity|constructor]|].
    split; [exists []; rewrite app_nil_r; reflexivity|auto].
  - cbn [fold_left List.filter].
    destruct (skipped_record x) eqn:Hskip; cbn [negb length].
    + rewrite (bulk_create_step_skipped _ _ _ _ Hskip).
      specialize (IH cat created (skipped + 1)%Z). cbv zeta in IH.
      destruct IH as (I1 & I2 & I3 & I4 & I5).
      split; [exact I1|]. split; [rewrite I2; lia|]. auto.
    + destruct (rec_category_id x) as [cid|] eqn:Ecid.
      * rewrite (bulk_create_step_given _ _ _ _ _ Ecid).
        match goal with
        | |- context [fold_left ?f records (?c, ?cr, ?sk)] =>
            specialize (IH c cr sk); cbv zeta in IH;
            destruct IH as (I1 & I2 & (np & I3 & I4) & (nc & I5) & I6)
        end.
        cbn [catalog_pois catalog_categories] in I3, I5, I6.
        split; [rewrite I1; lia|]. split; [exact I2|].
        split; [|split; [exists nc; exact I5|exact I6]].
        eexists. split; [rewrite I3, <- app_assoc; reflexivity|].
        constructor; [|exact I4]. cbn. rewrite Ecid. auto.
      * destruct (rec_category x) as [[|a name]|] eqn:Ecat;
          try (unfold skipped_record in Hskip; rewrite Ecid, Ecat in Hskip;
               discriminate).
        rewrite (bulk_create_step_named _ _ _ _ _ _ Ecid Ecat). cbv zeta.
        pose proof (get_or_create_category_spec cat (String a name) None None) as G.
        cbv zeta in G. destruct G as (G1 & G2 & G3 & (gn & G4 & _) & G5).
        match goal with
        | |- context [fold_left ?f records (?c0, ?cr, ?sk)] =>
            specialize (IH c0 cr sk); cbv zeta in IH;
            destruct IH as (I1 & I2 & (np & I3 & I4) & (nc & I5) & I6)
        end.
        cbn [catalog_pois catalog_categories] in I3, I5, I6.
        split; [rewrite I1; lia|]. split; [exact I2|].
        split; [|split].
        -- eexists. split; [rewrite I3, G3, <- app_assoc; reflexivity|].
           constructor; [|exact I4]. cbn. rewrite Ecid.
           repeat split. eexists. split; [|split; [reflexivity|]].
           ++ rewrite I5. apply elem_of_app. left. exact G2.
           ++ rewrite G1, Ecat. reflexivity.
        -- exists (gn ++ nc). rewrite I5, G4, <- app_assoc. reflexivity.
        -- intros Hnd. apply I6, G5, Hnd.
Qed.

(** X22.  [bulk_create] accounts for every record: [created] and
    [skipped] add up to the number of records, and the skipped ones are
    exactly those with no category id and no (or an empty) category name.
    The POIs created are appended in the order of their records, one per
    record that is not skipped, with the record's name, coordinates and
    rating; a record that carries a category id keeps it, even when it
    names a category too, and a record with a name only gets the id of a
    category of that name, which is in the table afterwards.  Existing POIs
    and categories are kept, and category names stay unique. *)
Theorem bulk_create_accounts (cat : Catalog) (records : list POIRecord) :
  ((bulk_create next_category_id next_poi_id cat records).2.1
   + (bulk_create next_category_id next_poi_id cat records).2.2
   = Z.of_nat (length records))%Z
  /\ (bulk_create next_category_id next_poi_id cat records).2.2
     = Z.of_nat (length (List.filter skipped_record records))
  /\ (exists new_pois,
        catalog_pois (bulk_create next_category_id next_poi_id cat records).1
        = catalog_pois cat ++ new_pois
        /\ Z.of_nat (length new_pois)
           = (bulk_create next_category_id next_poi_id cat records).2.1
        /\ Forall2 (fun x p =>
                      poi_name p = rec_name x
                      /\ poi_latitude p = rec_latitude x
                      /\ poi_longitude p = rec_longitude x
                      /\ poi_rating p = rec_rating x
                      /\ match rec_category_id x with
                         | Some cid => category_id p = cid
                         | None =>
                             exists c,
                               c ∈ catalog_categories
                                     (bulk_create next_category_id next_poi_id
                                                  cat records).1
                               /\ cat_id c = category_id p
                               /\ Some (cat_name c) = rec_category x
                         end)
                   (List.filter (fun x => negb (skipped_record x)) records)
                   new_pois)
  /\ (exists new_cats,
        catalog_categories (bulk_create next_category_id next_poi_id cat records).1
        = catalog_categories cat ++ new_cats)
  /\ (NoDup (cat_name <$> catalog_categories cat) ->
      NoDup (cat_name <$>
               catalog_categories
                 (bulk_create next_category_id next_poi_id cat records).1)).
Proof.
  pose proof (bulk_create_loop records cat 0%Z 0%Z) as H. cbv zeta in H.
  unfold bulk_create.
  destruct (fold_left _ records (cat, 0%Z, 0%Z)) as [[cat' created] skipped].
  cbn [fst snd] in *. destruct H as (H1 & H2 & (np & H3 & H4) & H5 & H6).
  assert (Hsplit : (length (List.filter (fun x => negb (skipped_record x)) records)
                    + length (List.filter skipped_record records)
                    = length records)%nat).
  { clear. induction records as [|x records IH]; [reflexivity|].
    simpl. destruct (skipped_record x); simpl; lia. }
  split; [lia|]. split; [lia|]. split; [|auto].
  exists np. split; [exact H3|]. split; [|exact H4].
  rewrite <- (Forall2_length _ _ _ H4). lia.
Qed.

End CategoryWrites.

(** * Further properties of the endpoints and the batch command *)

Lemma get_profile_of_elem db p :
  NoDup (profile_id <$> search_profiles db) ->
  p ∈ search_profiles db ->
  get_profile db (profile_id p) = Some p.
Proof.
  unfold get_profile. induction (search_profiles db) as [|p0 ps IH];
    intros Hnd Hin; [inversion Hin|].
  rewrite fmap_cons in Hnd. apply NoDup_cons in Hnd. destruct Hnd as [Hnot Hnd].
  apply elem_of_cons in Hin. simpl.
  destruct Hin as [->|Hin]; [rewrite Z.eqb_refl; reflexivity|].
  destruct (profile_id p0 =? profile_id p)%Z eqn:E; [|apply IH; assumption].
  apply Z.eqb_eq in E. exfalso. apply Hnot. rewrite E.
  apply list_elem_of_fmap. exists p. auto.
Qed.

Section Endpoints.
Variable haversine_distance : Q -> Q -> Q -> Q -> Q.
Variable parse_float : string -> option Q.

(** X23.  Both endpoints of [api/scores.py] answer a caller who does not
    own the profile exactly as they answer for a profile that does not
    exist, with 404 ["Profile not found"], and the compute endpoint then
    leaves the database untouched; the owner gets the ranking, with [total]
    the number of items. *)
Theorem scores_api_ownership (db : DB) (now jwt_user_id profile_id : Z)
  (profile : SearchProfile) :
  get_profile db profile_id = Some profile ->
  (user_id profile <> jwt_user_id ->
     api_get_scores db jwt_user_id profile_id
     = (ScoresError "Profile not found", 404%Z)
     /\ api_compute_scores haversine_distance parse_float db now jwt_user_id profile_id
        = (db, Ok {| body := ErrorBody "Profile not found"; status := 404 |})
     /\ forall missing, get_profile db missing = None ->
          api_get_scores db jwt_user_id missing
          = api_get_scores db jwt_user_id profile_id)
  /\ (user_id profile = jwt_user_id ->
      api_get_scores db jwt_user_id profile_id
      = (ScoresItems (get_ranked_properties db profile_id)
                     (length (get_ranked_properties db profile_id)), 200%Z)).
Proof.
  intros Hp. unfold api_get_scores, api_compute_scores. rewrite Hp. split.
  - intros Hne. apply Z.eqb_neq in Hne. rewrite Hne. cbn [negb].
    split; [reflexivity|]. split; [reflexivity|].
    intros missing ->. reflexivity.
  - intros <-. rewrite Z.eqb_refl. reflexivity.
Qed.

Lemma compute_scores_outcome db now pid :
  let r := compute_scores haversine_distance parse_float db now pid in
  properties r.1 = properties db /\ pois r.1 = pois db
  /\ property_poi_distances r.1 = property_poi_distances db
  /\ search_profiles r.1 = search_profiles db
  /\ forall count, r.2 = Ok count ->
       count = match get_profile db pid with
               | Some p => if has_rules p
                           then Z.of_nat (length (properties db)) else 0%Z
               | None => 0%Z
               end.
Proof.
  cbv zeta. unfold compute_scores, has_rules.
  destruct (get_profile db pid) as [p|]; [|repeat split; intros c [= <-]; reflexivity].
  destruct (scoring_rules p) as [|r rules];
    [repeat split; intros c [= <-]; reflexivity|].
  destruct (compute_loop _ _ _ _ _ _ _ _ _) as [[rows' c']|] eqn:Hloop;
    cbn [fst snd]; [|repeat split; discriminate].
  repeat split. intros c [= <-].
  apply compute_loop_ok in Hloop. destruct Hloop as (Hc & _). lia.
Qed.

Lemma recalculate_loop_total clock db0 :
  NoDup (profile_id <$> search_profiles db0) ->
  forall profiles db total db' total',
    (forall p, p ∈ profiles -> p ∈ search_profiles db0) ->
    properties db = properties db0 ->
    search_profiles db = search_profiles db0 ->
    recalculate_loop haversine_distance parse_float clock profiles db total
    = (db', Ok total') ->
    total' = (total + Z.of_nat (length (properties db0))
                      * Z.of_nat (length (List.filter has_rules profiles)))%Z
    /\ properties db' = properties db0
    /\ search_profiles db' = search_profiles db0.
Proof.
  intros Hnd. induction profiles as [|p profiles IH];
    intros db total db' total' Hsub Hprops Hprofs; simpl.
  - intros [= <- <-]. split; [lia|auto].
  - pose proof (compute_scores_outcome db (clock (profile_id p)) (profile_id p)) as H.
    cbv zeta in H. destruct H as (C1 & _ & _ & C4 & Hcount).
    destruct (compute_scores haversine_distance parse_float db
                             (clock (profile_id p)) (profile_id p))
      as [db1 [count|e]]; [|discriminate].
    cbn [fst snd] in *. specialize (Hcount count eq_refl).
    assert (Hget : get_profile db (profile_id p) = Some p).
    { unfold get_profile. rewrite Hprofs.
      apply (get_profile_of_elem db0 p Hnd). apply Hsub. left. }
    rewrite Hget in Hcount.
    intros Hrest. apply IH in Hrest.
    + destruct Hrest as (Ht & Hp' & Hs'). split; [|auto].
      rewrite Ht, Hcount, Hprops. destruct (has_rules p); simpl length; lia.
    + intros q Hq. apply Hsub. right. exact Hq.
    + congruence.
    + congruence.
Qed.

(** X24.  When profile ids are unique and [recalculate_all] completes, it
    reports no profiles when there is none, and otherwise a total equal to
    the number of listings times the number of profiles that have at least
    one rule; the listings and profiles are as they were. *)
Theorem recalculate_all_total (clock : Z -> Z) (db db' : DB) (report : RecalcReport) :
  NoDup (profile_id <$> search_profiles db) ->
  recalculate_all haversine_distance parse_float clock db = (db', Ok report) ->
  report = match search_profiles db with
           | [] => NoProfilesFound
           | profiles =>
               RecalculationComplete
                 (Z.of_nat (length (properties db))
                  * Z.of_nat (length (List.filter has_rules profiles)))
           end
  /\ properties db' = properties db
  /\ search_profiles db' = search_profiles db.
Proof.
  intros Hnd Hrun. unfold recalculate_all in Hrun.
  pose proof (recalculate_loop_total clock db Hnd (search_profiles db) db 0%Z)
    as Hloop.
  destruct (search_profiles db) as [|p0 ps] eqn:Hps.
  { injection Hrun as <- <-. rewrite Hps. auto. }
  destruct (recalculate_loop _ _ _ _ _ _) as [db1 [total|e]];
    [|discriminate].
  injection Hrun as <- <-.
  destruct (Hloop db1 total) as (Ht & Hp & Hs); [auto..|].
  split; [f_equal; lia|]. split; [exact Hp|exact Hs].
Qed.

End Endpoints.

(** * The further scenarios, run *)

Lemma grid_distance_nonneg lat1 lon1 lat2 lon2 :
  0 <= grid_distance lat1 lon1 lat2 lon2.
Proof.
  unfold grid_distance.
  pose proof (Qabs_nonneg (lat2 - lat1)). pose proof (Qabs_nonneg (lon2 - lon1)).
  nra.
Qed.

(** X1, witness: two of the three cafes are within 500 m of the listing,
    five are wanted: 0.4. *)
Lemma density_raw_value_scenario :
  exists v,
    _eval_poi_density grid_distance scenario_db (density_rule 1) barcelona = Ok v
    /\ v == 2 # 5.
Proof.
  destruct (density_raw_value grid_distance scenario_db (density_rule 1) barcelona
              (41389 # 1000) (2159 # 1000) 500 5 2%Z)
    as (v & Hv & Hval & _);
    [first [reflexivity | vm_compute; discriminate] .. |].
  exists v. split; [exact Hv|]. rewrite Hval. vm_compute. reflexivity.
Defined.

(** X2, witness: a target count of zero. *)
Lemma density_bad_target_count_scenario :
  _eval_poi_density grid_distance scenario_db zero_target_rule barcelona
  = Raise ZeroDivisionError.
Proof.
  destruct (density_bad_target_count grid_distance scenario_db zero_target_rule
              barcelona (41389 # 1000) (2159 # 1000) 2%Z (JNum 0))
    as [Hzero _];
    [first [reflexivity | vm_compute; discriminate] .. |].
  apply (Hzero 0); reflexivity.
Defined.

(** X3, witness: three bedrooms, two wanted, tolerance two: 0.5. *)
Lemma property_attr_raw_value_scenario :
  exists v,
    _eval_property_attr no_numeric_strings two_bedrooms_rule barcelona = Ok v
    /\ v == 1 # 2.
Proof.
  destruct (property_attr_raw_value no_numeric_strings two_bedrooms_rule barcelona
              "bedrooms" 3 2)
    as [_ Htol]; [reflexivity .. |].
  destruct (Htol 2) as (v & Hv & Hval & _); [reflexivity .. |].
  exists v. split; [exact Hv|]. rewrite Hval. vm_compute. reflexivity.
Defined.

(** X4, witness: listings have no attribute [garden]. *)
Lemma property_attr_degrades_to_zero_scenario :
  _eval_property_attr no_numeric_strings garden_rule barcelona = Ok 0.
Proof.
  apply property_attr_degrades_to_zero.
  right. right. right. left. exists "garden"%string. split; reflexivity.
Defined.

(** X5, witness: one bedroom wanted of a listing with three; and an ideal
    of [10^400] bedrooms. *)
Lemma property_attr_attribute_name_type_scenario :
  (exists v, _eval_property_attr no_numeric_strings bedrooms_rule barcelona = Ok v)
  /\ _eval_property_attr no_numeric_strings huge_ideal_rule barcelona
     = Raise OverflowError.
Proof.
  split.
  - destruct (property_attr_attribute_name_type no_numeric_strings bedrooms_rule
                barcelona (JStr "bedrooms")) as [Hstr _]; [reflexivity|].
    destruct (Hstr "bedrooms"%string eq_refl) as (_ & Hok & _).
    apply Hok.
    + intros a [= <-]. reflexivity.
    + intros i Hi. vm_compute in Hi. injection Hi as <-. reflexivity.
    + intros t Ht. vm_compute in Ht. injection Ht as <-. reflexivity.
  - destruct (property_attr_attribute_name_type no_numeric_strings huge_ideal_rule
                barcelona (JStr "bedrooms")) as [Hstr _]; [reflexivity|].
    destruct (Hstr "bedrooms"%string eq_refl) as (_ & _ & Hover).
    apply (Hover 3 (inject_Z (10 ^ 400))).
    + reflexivity.
    + reflexivity.
    + reflexivity.
    + vm_compute. discriminate.
Defined.

(** X6, witness: 400 m and 600 m against a radius of 1000 m. *)
Lemma decay_antitone_scenario :
  decay 600 1000 <= decay 400 1000 /\ decay 1200 1000 == 0.
Proof.
  split.
  - apply (decay_antitone 400 600 1000); lra.
  - apply (decay_antitone 400 1200 1000); lra.
Defined.

(** X7, witness: the station of the first scenario. *)
Lemma proximity_in_unit_range_scenario :
  exists v,
    _eval_poi_proximity grid_distance scenario_db (proximity_rule 1) barcelona = Ok v
    /\ 0 <= v /\ v <= 1.
Proof.
  destruct (_eval_poi_proximity grid_distance scenario_db (proximity_rule 1) barcelona)
    as [v|e] eqn:Hv; [|vm_compute in Hv; discriminate].
  exists v. split; [reflexivity|].
  apply (proximity_in_unit_range grid_distance grid_distance_nonneg scenario_db
           (proximity_rule 1) barcelona v); [|exact Hv].
  intros row Hrow. apply list_elem_of_In in Hrow.
  destruct Hrow as [<-|[]]. vm_compute. discriminate.
Defined.

(** X8, witness: stations and cafes around the listing. *)
Lemma walkability_in_unit_range_scenario :
  exists v,
    _eval_walkability grid_distance scenario_db (walkability_rule [JNum 1; JNum 2])
                      barcelona = Ok v
    /\ 0 <= v /\ v <= 1.
Proof.
  destruct (_eval_walkability grid_distance scenario_db
              (walkability_rule [JNum 1; JNum 2]) barcelona)
    as [v|e] eqn:Hv; [|vm_compute in Hv; discriminate].
  exists v. split; [reflexivity|].
  apply (walkability_in_unit_range grid_distance grid_distance_nonneg scenario_db
           (walkability_rule [JNum 1; JNum 2]) barcelona v); [| |exact Hv].
  - intros m [= <-]. vm_compute. discriminate.
  - intros j [= <-]. exists [JNum 1; JNum 2]. split; [reflexivity|].
    repeat (apply Forall_cons_2; [eexists; reflexivity|]). apply Forall_nil_2.
Defined.

(** X9, witness: category 4 has no POI. *)
Lemma walkability_empty_category_lowers_scenario :
  exists v v',
    _eval_walkability grid_distance scenario_db (walkability_rule [JNum 1; JNum 2])
                      barcelona = Ok v
    /\ _eval_walkability grid_distance scenario_db
                         (walkability_rule [JNum 4; JNum 1; JNum 2]) barcelona = Ok v'
    /\ v' * 3 == v * 2.
Proof.
  destruct (_eval_walkability grid_distance scenario_db
              (walkability_rule [JNum 1; JNum 2]) barcelona)
    as [v|e] eqn:Hv; [|vm_compute in Hv; discriminate].
  destruct (walkability_empty_category_lowers grid_distance scenario_db
              (walkability_rule [JNum 1; JNum 2])
              (walkability_rule [JNum 4; JNum 1; JNum 2])
              barcelona (JNum 4) [JNum 1; JNum 2] v)
    as (v' & Hv' & Hscale & _);
    [reflexivity | reflexivity | reflexivity | | reflexivity | exact Hv |].
  { repeat (apply Forall_cons_2; [eexists; reflexivity|]). apply Forall_nil_2. }
  exists v, v'. split; [reflexivity|]. split; [exact Hv'|exact Hscale].
Defined.

(** X10, witness: stations and cafes have coordinates; the only school has
    none. *)
Lemma walkability_returns_or_raises_scenario :
  (exists v,
      _eval_walkability grid_distance scenario_db (walkability_rule [JNum 1; JNum 2])
                        barcelona = Ok v)
  /\ _eval_walkability grid_distance scenario_db (walkability_rule [JNum 3]) barcelona
     = Raise ValueError.
Proof.
  split.
  - destruct (walkability_returns_or_raises grid_distance scenario_db
                (walkability_rule [JNum 1; JNum 2]) barcelona
                (41389 # 1000) (2159 # 1000)) as [Hlist _];
      [first [reflexivity | vm_compute; discriminate] .. |].
    destruct (Hlist [JNum 1; JNum 2]) as [Hok _]; [reflexivity|].
    apply Hok.
    { repeat (apply Forall_cons_2; [eexists; reflexivity|]). apply Forall_nil_2. }
    apply Forall_cons_2; [right; vm_compute; discriminate|].
    apply Forall_cons_2; [right; vm_compute; discriminate|].
    apply Forall_nil_2.
  - destruct (walkability_returns_or_raises grid_distance scenario_db
                (walkability_rule [JNum 3]) barcelona
                (41389 # 1000) (2159 # 1000)) as [Hlist _];
      [first [reflexivity | vm_compute; discriminate] .. |].
    destruct (Hlist [JNum 3]) as [_ Hraise]; [reflexivity|].
    apply (Hraise (JNum 3) []); [reflexivity|vm_compute; discriminate|reflexivity].
Defined.

(** X11, witness: a run for the profile of the first scenario. *)
Lemma compute_scores_materialises_scenario :
  exists db' n,
    compute_scores grid_distance no_numeric_strings scenario_db 0 7 = (db', Ok n)
    /\ n = 1%Z /\ properties db' = [barcelona]
    /\ is_Some (lookup_score (property_scores db') 1 7).
Proof.
  destruct (compute_scores grid_distance no_numeric_strings scenario_db 0 7)
    as [db' [n|e]] eqn:Hrun; [|vm_compute in Hrun; discriminate].
  exists db', n. split; [reflexivity|].
  destruct (compute_scores_materialises grid_distance no_numeric_strings
              scenario_db db' 0 7 n metro_profile)
    as (Hn & Hprops & _ & _ & _ & Hrows);
    [reflexivity|discriminate|exact Hrun|].
  split; [exact Hn|]. split; [exact Hprops|].
  destruct (Hrows barcelona) as (row & Hrow & _).
  - apply list_elem_of_In. left. reflexivity.
  - exists row. exact Hrow.
Defined.

(** X12, witness: a run for profile 7 and the rows of profile 9. *)
Lemma compute_scores_other_keys_untouched_scenario :
  lookup_score
    (property_scores
       (compute_scores grid_distance no_numeric_strings scenario_db 0 7).1) 1 9
  = lookup_score (property_scores scenario_db) 1 9.
Proof.
  apply compute_scores_other_keys_untouched. left. discriminate.
Defined.

(** X13, witness: a run on the two listings. *)
Lemma compute_scores_keeps_keys_unique_scenario :
  NoDup (score_key <$>
           property_scores
             (compute_scores grid_distance no_numeric_strings tie_db 0 7).1).
Proof.
  apply (compute_scores_keeps_keys_unique grid_distance no_numeric_strings tie_db 0 7).
  apply (bool_decide_unpack _). vm_compute. exact I.
Defined.

(** X14, witness: after a run on the two listings the ranking holds both. *)
Lemma ranking_after_compute_lists_every_listing_scenario :
  exists db' n,
    compute_scores grid_distance no_numeric_strings tie_db 0 7 = (db', Ok n)
    /\ (get_ranked_properties db' 7).*2 ≡ₚ [barcelona; neighbour].
Proof.
  destruct (compute_scores grid_distance no_numeric_strings tie_db 0 7)
    as [db' [n|e]] eqn:Hrun; [|vm_compute in Hrun; discriminate].
  exists db', n. split; [reflexivity|].
  apply (ranking_after_compute_lists_every_listing grid_distance no_numeric_strings
           tie_db db' 0 7 n metro_profile);
    [| | reflexivity | discriminate | exact Hrun];
    apply (bool_decide_unpack _); vm_compute; exact I.
Defined.

(** X15, witness: the entrance at the door, found within 1 m among the
    stations, is found within 1000 m, and among all POIs. *)
Lemma find_nearby_monotone_scenario :
  exists it,
    it ∈ find_nearby grid_distance doorstep_db (41389 # 1000) (2159 # 1000) 1
           (Some 1%Z)
    /\ it ∈ find_nearby grid_distance doorstep_db (41389 # 1000) (2159 # 1000) 1000
             (Some 1%Z)
    /\ it ∈ find_nearby grid_distance doorstep_db (41389 # 1000) (2159 # 1000) 1000
             None.
Proof.
  assert (Hin : {| item_poi := doorstep_metro;
                   item_distance_m :=
                     py_round (grid_distance (41389 # 1000) (2159 # 1000)
                                             (41389 # 1000) (2159 # 1000)) 1 |}
                ∈ find_nearby grid_distance doorstep_db (41389 # 1000) (2159 # 1000) 1
                    (Some 1%Z)).
  { vm_compute. apply list_elem_of_here. }
  eexists. split; [exact Hin|].
  apply (find_nearby_monotone grid_distance doorstep_db (41389 # 1000) (2159 # 1000)
           1 1000 (Some 1%Z)); [lra|exact Hin].
Defined.

(** X16, witness: a station on the prime meridian, 111 m from the point
    asked about. *)
Lemma find_nearby_keeps_zero_coordinates_scenario :
  {| item_poi := greenwich_station;
     item_distance_m :=
       py_round (grid_distance (51477 # 1000) (1 # 1000) (51477 # 1000) 0) 1 |}
    ∈ find_nearby grid_distance greenwich_db (51477 # 1000) (1 # 1000) 1000 None
  /\ live_distances grid_distance (51477 # 1000) (1 # 1000) [greenwich_station] = [].
Proof.
  apply (find_nearby_keeps_zero_coordinates grid_distance greenwich_db
           (51477 # 1000) (1 # 1000) 1000 greenwich_station (51477 # 1000) 0).
  - apply list_elem_of_In. left. reflexivity.
  - reflexivity.
  - reflexivity.
  - right. reflexivity.
  - vm_compute. discriminate.
Defined.

(** X17, witness: a negative radius. *)
Lemma find_nearby_nonnegative_scenario :
  find_nearby grid_distance doorstep_db (41389 # 1000) (2159 # 1000) (-1) None = [].
Proof.
  apply (find_nearby_nonnegative grid_distance doorstep_db (41389 # 1000)
           (2159 # 1000) (-1) None grid_distance_nonneg).
  reflexivity.
Defined.

(** X23, witness: profile 7 belongs to user 42; user 43 asks for it, then
    its owner. *)
Lemma scores_api_ownership_scenario :
  api_get_scores scenario_db 43 7 = (ScoresError "Profile not found", 404%Z)
  /\ api_compute_scores grid_distance no_numeric_strings scenario_db 0 43 7
     = (scenario_db, Ok {| body := ErrorBody "Profile not found"; status := 404 |})
  /\ api_get_scores scenario_db 42 7 = (ScoresItems [] 0, 200%Z).
Proof.
  destruct (scores_api_ownership grid_distance no_numeric_strings scenario_db 0 43 7
              metro_profile) as [Hother _]; [reflexivity|].
  destruct Hother as (Hget & Hpost & _); [discriminate|].
  destruct (scores_api_ownership grid_distance no_numeric_strings scenario_db 0 42 7
              metro_profile) as [_ Hown]; [reflexivity|].
  split; [exact Hget|]. split; [exact Hpost|]. apply Hown. reflexivity.
Defined.

(** X24, witness: two listings, one profile with a rule and one without:
    two scores. *)
Lemma recalculate_all_total_scenario :
  exists db' report,
    recalculate_all grid_distance no_numeric_strings (fun _ => 0%Z) batch_db
    = (db', Ok report)
    /\ report = RecalculationComplete 2.
Proof.
  destruct (recalculate_all grid_distance no_numeric_strings (fun _ => 0%Z) batch_db)
    as [db' [report|e]] eqn:Hrun; [|vm_compute in Hrun; discriminate].
  exists db', report. split; [reflexivity|].
  apply recalculate_all_total in Hrun; [apply Hrun|].
  apply (bool_decide_unpack _). vm_compute. exact I.
Defined.
